(** * Tiny platformer: physics step, collision resolution and camera

    A shallow embedding of the simulation core of
    [src/tiny_platformer_react_canvas_game.jsx]: the world constants, the
    level, [resolveCollisions], [update] and the part of the frame loop that
    feeds [update] its time delta.

    JavaScript numbers are modelled as exact rationals ([Q]): [0.999], [0.01]
    and [1/60] are the rationals they denote, arithmetic does not round, and
    there is no NaN or infinity.  Equality of numbers is [Qeq] ([==]).
    Where rounding decides a property, the camera's approach to its target,
    the same lines are also given on binary64 values ([followCamera64]).
    The mutable cells of the component ([player], [inputRef], [camera],
    [dtRef], [lastRef]) are the fields of one [World] record that every
    function takes and returns. *)

From Stdlib Require Import QArith Qabs Qminmax Qround Lqa Lia Bool List ZArith.
From Stdlib Require Import Strings.String.
From Stdlib Require Import Floats.
Import ListNotations.

Local Open Scope Q_scope.

(** ** Comparisons of the source, as boolean tests *)

Definition Qlt_bool (a b : Q) : bool := negb (Qle_bool b a).

Declare Scope js_scope.
Delimit Scope js_scope with js.
Notation "a <? b" := (Qlt_bool a b) (at level 70) : js_scope.
Notation "a <=? b" := (Qle_bool a b) (at level 70) : js_scope.
Notation "a >? b" := (Qlt_bool b a) (at level 70) : js_scope.
Notation "a >=? b" := (Qle_bool b a) (at level 70) : js_scope.
Local Open Scope js_scope.

(** ** World constants (lines 14-20) *)

Definition GRAVITY : Q := 2000.
Definition MOVE_ACCEL : Q := 3000.
Definition MOVE_MAX : Q := 260.
Definition FRICTION : Q := 1800.
Definition JUMP_VEL : Q := 720.
Definition TILE : Q := 48.

(** ** Data *)

Module Platform.
Record t : Type := mk { x : Q; y : Q; w : Q; h : Q }.
End Platform.

Module Player.
Record t : Type := mk
  { x : Q; y : Q; w : Q; h : Q; vx : Q; vy : Q; onGround : bool; facing : Z }.
End Player.

Module Input.
Record t : Type := mk
  { left : bool; right : bool; jump : bool; jumpPressed : bool }.
End Input.

Module Camera.
Record t : Type := mk { x : Q; y : Q }.
End Camera.

(** The object returned by [resolveCollisions], which is also the state of
    its loop. *)
Module Res.
Record t : Type := mk { nx : Q; ny : Q; vx : Q; vy : Q; onGround : bool }.
End Res.

Record World : Type := mkWorld
  { player : Player.t;
    input : Input.t;
    camera : Camera.t;
    dtRef : Q;
    lastRef : option Q }.

(** The level of the component (lines 23-32). *)
Definition platforms : list Platform.t :=
  [ Platform.mk (-400) 400 1600 TILE;
    Platform.mk 200 320 (TILE * 3) (TILE / 2);
    Platform.mk 520 260 (TILE * 2) (TILE / 2);
    Platform.mk 760 300 (TILE * 2) (TILE / 2);
    Platform.mk 1040 240 (TILE * 3) (TILE / 2);
    Platform.mk 1350 340 (TILE * 2.5) (TILE / 2) ].

(** The initial cells (lines 11, 35-47, 172-173). *)
Definition player0 : Player.t := Player.mk 100 200 28 44 0 0 false 1%Z.
Definition input0 : Input.t := Input.mk false false false false.
Definition camera0 : Camera.t := Camera.mk 0 0.
Definition world0 : World := mkWorld player0 input0 camera0 0 None.

(** ** Collision resolution (lines 102-169) *)

(** The broad-phase test of line 109. *)
Definition near (px py : Q) (p : Platform.t) : bool :=
  (Qabs (px - (Platform.x p + Platform.w p / 2)) <? 400)
  && (Qabs (py - (Platform.y p + Platform.h p / 2)) <? 400).

(** One iteration of the loop of lines 112-166.  [pl] is [player.current]
    (read for [w] and [h]) and [dtr] is [dtRef.current]. *)
Definition resolveStep (pl : Player.t) (dtr px py : Q)
    (s : Res.t) (p : Platform.t) : Res.t :=
  let nx := Res.nx s in
  let ny := Res.ny s in
  let vx := Res.vx s in
  let vy := Res.vy s in
  let onGround := Res.onGround s in
  let prevBottom := py + Player.h pl in
  let nextBottom := ny + Player.h pl + vy * dtr in
  let landed :=
    (nx + Player.w pl >? Platform.x p)
    && (nx <? Platform.x p + Platform.w p)
    && (prevBottom <=? Platform.y p)
    && (nextBottom >=? Platform.y p) in
  let ny := if landed then Platform.y p - Player.h pl else ny in
  let vy := if landed then 0 else vy in
  let onGround := if landed then true else onGround in
  let prevTop := py in
  let nextTop := ny + vy * dtr in
  let bumped :=
    (nx + Player.w pl >? Platform.x p)
    && (nx <? Platform.x p + Platform.w p)
    && (prevTop >=? Platform.y p + Platform.h p)
    && (nextTop <=? Platform.y p + Platform.h p) in
  let ny := if bumped then Platform.y p + Platform.h p else ny in
  let vy := if bumped then 0 else vy in
  let nextRight := nx + Player.w pl + vx * dtr in
  let nextLeft := nx + vx * dtr in
  let hitLeft :=
    (py + Player.h pl >? Platform.y p)
    && (py <? Platform.y p + Platform.h p)
    && (px + Player.w pl <=? Platform.x p)
    && (nextRight >? Platform.x p) in
  let nx := if hitLeft then Platform.x p - Player.w pl else nx in
  let vx := if hitLeft then 0 else vx in
  let hitRight :=
    (py + Player.h pl >? Platform.y p)
    && (py <? Platform.y p + Platform.h p)
    && (px >=? Platform.x p + Platform.w p)
    && (nextLeft <? Platform.x p + Platform.w p) in
  let nx := if hitRight then Platform.x p + Platform.w p else nx in
  let vx := if hitRight then 0 else vx in
  Res.mk nx ny vx vy onGround.

(** The loop of lines 112-166 over a list of candidate platforms. *)
Definition resolveLoop (pl : Player.t) (dtr px py : Q)
    (cands : list Platform.t) (s : Res.t) : Res.t :=
  fold_left (resolveStep pl dtr px py) cands s.

Definition resolveCollisions (plats : list Platform.t) (pl : Player.t)
    (dtr px py vx vy : Q) : Res.t :=
  let nearby := filter (near px py) plats in
  resolveLoop pl dtr px py nearby (Res.mk px py vx vy false).

(** ** The tick (lines 201-260) *)

(** Lines 205-224: horizontal control, friction or damping, speed clamp. *)
Definition moveHorizontal (dt : Q) (inp : Input.t) (p : Player.t) : Player.t :=
  let '(Player.mk x y w h vx vy onGround facing) := p in
  let '(vx, facing) :=
    if Input.left inp && negb (Input.right inp) then
      (vx - MOVE_ACCEL * dt, (-1)%Z)
    else if Input.right inp && negb (Input.left inp) then
      (vx + MOVE_ACCEL * dt, 1%Z)
    else if onGround then
      (if vx >? 0 then Qmax 0 (vx - FRICTION * dt)
       else if vx <? 0 then Qmin 0 (vx + FRICTION * dt)
       else vx, facing)
    else (vx * 0.999, facing) in
  let vx := Qmax (- MOVE_MAX) (Qmin MOVE_MAX vx) in
  Player.mk x y w h vx vy onGround facing.

(** Lines 226-234: gravity, then the edge-triggered jump; the edge flag is
    reset whatever the outcome. *)
Definition gravityAndJump (dt : Q) (inp : Input.t) (p : Player.t)
    : Player.t * Input.t :=
  let '(Player.mk x y w h vx vy onGround facing) := p in
  let vy := vy + GRAVITY * dt in
  let '(vy, onGround) :=
    if Input.jumpPressed inp && onGround then (- JUMP_VEL, false)
    else (vy, onGround) in
  (Player.mk x y w h vx vy onGround facing,
   Input.mk (Input.left inp) (Input.right inp) (Input.jump inp) false).

(** The integrator part of [update], lines 205-238: the player and input
    cells as they stand before collision resolution, and the tentative
    position [(nx, ny)]. *)
Record Integrated : Type := mkIntegrated
  { i_player : Player.t; i_input : Input.t; i_nx : Q; i_ny : Q }.

Definition integrate (dt : Q) (inp : Input.t) (p : Player.t) : Integrated :=
  let p := moveHorizontal dt inp p in
  let '(p, inp) := gravityAndJump dt inp p in
  mkIntegrated p inp
    (Player.x p + Player.vx p * dt) (Player.y p + Player.vy p * dt).

(** Lines 241-254: the resolver's result is stored, then the integrated
    position replaces it on each axis that differs by more than 0.01 (for
    [y], only when [onGround] is false). *)
Definition applyResolution (res : Res.t) (nx ny : Q) (p : Player.t) : Player.t :=
  let '(Player.mk _ _ w h _ _ _ facing) := p in
  let x := Res.nx res in
  let y := Res.ny res in
  let vx := Res.vx res in
  let vy := Res.vy res in
  let onGround := Res.onGround res in
  let y := if negb onGround && (Qabs (ny - y) >? 0.01) then ny else y in
  let x := if Qabs (nx - x) >? 0.01 then nx else x in
  Player.mk x y w h vx vy onGround facing.

(** Lines 257-259. *)
Definition cameraTarget (p : Player.t) : Q :=
  Player.x p + Player.w p / 2 - 320.

(** The update of line 258 in exact arithmetic; [followCamera64] below is
    the same update on binary64 values, where each operation rounds. *)
Definition followCamera (dt : Q) (p : Player.t) (c : Camera.t) : Camera.t :=
  let targetX := cameraTarget p in
  Camera.mk (Camera.x c + (targetX - Camera.x c) * Qmin 1 (10 * dt)) 0.

Definition update (plats : list Platform.t) (dt : Q) (w : World) : World :=
  let i := integrate dt (input w) (player w) in
  let p := i_player i in
  let res :=
    resolveCollisions plats p (dtRef w)
      (Player.x p) (Player.y p) (Player.vx p) (Player.vy p) in
  let p := applyResolution res (i_nx i) (i_ny i) p in
  mkWorld p (i_input i) (followCamera dt p (camera w)) (dtRef w) (lastRef w).

(** ** The frame loop (lines 181-187), without rendering *)

(** Lines 185-187: the loop stores the delta in [dtRef] and calls
    [update] with it. *)
Definition frame (plats : list Platform.t) (dt : Q) (w : World) : World :=
  update plats dt
    (mkWorld (player w) (input w) (camera w) dt (lastRef w)).

(** Lines 182-183: the delta for a timestamp [t] in milliseconds, capped at
    1/30 s; it is 0 on the first frame after a start or a resume. *)
Definition loopDelta (t : Q) (w : World) : Q :=
  let last := match lastRef w with None => t | Some l => l end in
  Qmin (1 / 30) ((t - last) / 1000).

(** Lines 182-187. *)
Definition loop (plats : list Platform.t) (t : Q) (w : World) : World :=
  let dt := loopDelta t w in
  frame plats dt
    (mkWorld (player w) (input w) (camera w) (dtRef w) (Some t)).

(** [n] consecutive frames with the same delta and no input events in
    between. *)
Fixpoint frames (plats : list Platform.t) (dt : Q) (n : nat) (w : World)
    : World :=
  match n with
  | O => w
  | S k => frames plats dt k (frame plats dt w)
  end.

(** Frames with the deltas of a list, in order, and no input events in
    between. *)
Definition run (plats : list Platform.t) (dts : list Q) (w : World) : World :=
  fold_left (fun w dt => frame plats dt w) dts w.

(** A script gives, for each frame, the content of the input cell when the
    frame starts (whatever the key and pointer handlers left there) and the
    delta.  [integratedVxs] lists [vx] as the integrator leaves it on each
    frame of the script. *)
Definition withInput (inp : Input.t) (w : World) : World :=
  mkWorld (player w) inp (camera w) (dtRef w) (lastRef w).

Fixpoint integratedVxs (plats : list Platform.t)
    (script : list (Input.t * Q)) (w : World) : list Q :=
  match script with
  | [] => []
  | (inp, dt) :: rest =>
      let w1 := withInput inp w in
      Player.vx (i_player (integrate dt (input w1) (player w1)))
        :: integratedVxs plats rest (frame plats dt w1)
  end.

(** The resolution loop of [resolveCollisions] run over every platform,
    without the broad-phase filter: the exhaustive variant that the
    specification compares the filtered resolver with. *)
Definition resolveCollisionsExhaustive (plats : list Platform.t)
    (pl : Player.t) (dtr px py vx vy : Q) : Res.t :=
  resolveLoop pl dtr px py plats (Res.mk px py vx vy false).

(** The overlap, head-bump and left-side-block conditions, on the pose
    before the tick [(px, py)] and the velocity the integrator produced. *)
Definition overlapsX (pl : Player.t) (px : Q) (p : Platform.t) : Prop :=
  px + Player.w pl > Platform.x p /\ px < Platform.x p + Platform.w p.

Definition overlapsY (pl : Player.t) (py : Q) (p : Platform.t) : Prop :=
  py + Player.h pl > Platform.y p /\ py < Platform.y p + Platform.h p.

Definition headBump (pl : Player.t) (dtr px py vy : Q) (p : Platform.t)
    : Prop :=
  overlapsX pl px p
  /\ py >= Platform.y p + Platform.h p
  /\ py + vy * dtr <= Platform.y p + Platform.h p.


(** An actor at rest on the top of platform [s]: feet on its top edge,
    horizontal extents overlapping, no velocity, [onGround] set. *)
Definition restsOn (p : Player.t) (s : Platform.t) : Prop :=
  Player.y p + Player.h p == Platform.y s
  /\ overlapsX p (Player.x p) s
  /\ Player.vx p == 0 /\ Player.vy p == 0
  /\ Player.onGround p = true.

(** No platform that the resolver examines for actor [p] and that overlaps
    it horizontally has its top strictly below the actor's feet yet within
    the distance [GRAVITY * dt * dt] that one frame of gravity covers from
    rest. *)
Definition clearBelow (plats : list Platform.t) (p : Player.t) (dt : Q)
    : Prop :=
  forall q, In q plats ->
    near (Player.x p) (Player.y p) q = true ->
    overlapsX p (Player.x p) q ->
    ~ (Player.y p + Player.h p < Platform.y q
       /\ Platform.y q <= Player.y p + Player.h p + GRAVITY * dt * dt).

(** The world while the actor stays at rest at [(x0, y0)], with size
    [(w0, h0)], and no key is held. *)
Definition resting (x0 y0 w0 h0 : Q) (w : World) : Prop :=
  Input.left (input w) = false /\ Input.right (input w) = false
  /\ Input.jumpPressed (input w) = false
  /\ Player.x (player w) == x0 /\ Player.y (player w) == y0
  /\ Player.w (player w) = w0 /\ Player.h (player w) = h0
  /\ Player.vx (player w) == 0 /\ Player.vy (player w) == 0
  /\ Player.onGround (player w) = true.

(** The world while the actor does not move horizontally: no direction is
    held (or both are) and [vx] is 0. *)
Definition still (x0 w0 : Q) (w : World) : Prop :=
  Input.left (input w) = Input.right (input w)
  /\ Player.x (player w) = x0 /\ Player.w (player w) = w0
  /\ Player.vx (player w) == 0.

(** The camera's [x] after [n] frames of delta [dt]. *)
Definition cameraAfter (plats : list Platform.t) (dt : Q) (w : World)
    (n : nat) : Q :=
  Camera.x (camera (frames plats dt n w)).

(** The state of the resolution loop while the actor rests at [(x0, y0)]:
    before the supporting platform has been examined, and from then on. *)
Definition restBefore (x0 y0 : Q) (st : Res.t) : Prop :=
  Res.nx st == x0 /\ Res.vx st == 0 /\ y0 <= Res.ny st /\ 0 <= Res.vy st.

Definition restAfter (x0 y0 : Q) (st : Res.t) : Prop :=
  Res.nx st == x0 /\ Res.vx st == 0 /\ Res.ny st == y0
  /\ Res.vy st == 0 /\ Res.onGround st = true.

(** Every delta of the list is at least 0. *)
Definition forwardDeltas (dts : list Q) : Prop :=
  Forall (fun dt => 0 <= dt) dts.

(** [clearBelow] for one platform and an actor of the size of [pl] at
    [(x0, y0)]. *)
Definition clearOf (pl : Player.t) (dt x0 y0 : Q) (q : Platform.t) : Prop :=
  x0 + Player.w pl > Platform.x q -> x0 < Platform.x q + Platform.w q ->
  ~ (y0 + Player.h pl < Platform.y q
     /\ Platform.y q <= y0 + Player.h pl + GRAVITY * dt * dt).

(** The landing test of lines 117-122 and the head-bump test of lines
    132-137 for platform [p], as an iteration of the loop that enters in
    state [st] evaluates them (the head-bump test after the landing branch
    has run). *)
Definition landingTest (pl : Player.t) (dtr px py : Q)
    (st : Res.t) (p : Platform.t) : bool :=
  (Res.nx st + Player.w pl >? Platform.x p)
  && (Res.nx st <? Platform.x p + Platform.w p)
  && (py + Player.h pl <=? Platform.y p)
  && (Res.ny st + Player.h pl + Res.vy st * dtr >=? Platform.y p).

Definition bumpTest (pl : Player.t) (dtr px py : Q)
    (st : Res.t) (p : Platform.t) : bool :=
  let landed := landingTest pl dtr px py st p in
  let ny := if landed then Platform.y p - Player.h pl else Res.ny st in
  let vy := if landed then 0 else Res.vy st in
  (Res.nx st + Player.w pl >? Platform.x p)
  && (Res.nx st <? Platform.x p + Platform.w p)
  && (py >=? Platform.y p + Platform.h p)
  && (ny + vy * dtr <=? Platform.y p + Platform.h p).

(** Whether a landing or a head bump fires for some candidate while the
    loop runs from state [st]. *)
Fixpoint verticalHit (pl : Player.t) (dtr px py : Q)
    (cands : list Platform.t) (st : Res.t) : bool :=
  match cands with
  | [] => false
  | q :: rest =>
      landingTest pl dtr px py st q || bumpTest pl dtr px py st q
      || verticalHit pl dtr px py rest (resolveStep pl dtr px py st q)
  end.

(** Whether a landing or a head bump fires in the resolver on the tick that
    [update] runs with delta [dt] on world [w]. *)
Definition collides (plats : list Platform.t) (dt : Q) (w : World) : bool :=
  let q := i_player (integrate dt (input w) (player w)) in
  verticalHit q (dtRef w) (Player.x q) (Player.y q)
    (filter (near (Player.x q) (Player.y q)) plats)
    (Res.mk (Player.x q) (Player.y q) (Player.vx q) (Player.vy q) false).

(** ** The camera follower in the code's own numbers

    Lines 257-258 on IEEE 754 binary64 values, which is what JavaScript
    numbers are: every operation rounds to nearest, ties to even. *)

(** [Math.min] on two numbers: NaN if either is NaN, and -0 below +0. *)
Definition mathMin (a b : float) : float :=
  if (PrimFloat.is_nan a || PrimFloat.is_nan b)%bool then PrimFloat.nan
  else if PrimFloat.ltb a b then a
  else if PrimFloat.ltb b a then b
  else if (PrimFloat.is_zero a && PrimFloat.get_sign a)%bool then a
  else b.

(** One camera update for an actor at [x = px] of width [pw]. *)
Definition followCamera64 (dt px pw c : float) : float :=
  let targetX := (px + pw / 2 - 320)%float in
  (c + (targetX - c) * mathMin 1 (10 * dt))%float.

(** The camera's [x] after [n] updates from [c], the actor staying put. *)
Fixpoint cameraAfter64 (dt px pw c : float) (n : nat) : float :=
  match n with
  | O => c
  | S k => cameraAfter64 dt px pw (followCamera64 dt px pw c) k
  end.

(** The distance to the target is below [eps]. *)
Definition within64 (target eps c : float) : bool :=
  PrimFloat.ltb (PrimFloat.abs (c - target)%float) eps.

(** Over the first [n] updates from [c] the camera never moves away from
    the target nor across it, for a camera that starts at or above it. *)
Fixpoint approaches64 (dt px pw c : float) (n : nat) : bool :=
  match n with
  | O => true
  | S k =>
      let target := (px + pw / 2 - 320)%float in
      let c' := followCamera64 dt px pw c in
      (PrimFloat.leb target c' && PrimFloat.leb c' c)%bool
      && approaches64 dt px pw c' k
  end.

(** ** Scenes *)

Definition noInput : Input.t := input0.

Definition scene (p : Player.t) (inp : Input.t) : World :=
  mkWorld p inp camera0 0 None.

(** The actor of the specification's scenarios and its ground platform. *)
Definition specGround : Platform.t := Platform.mk 0 400 1600 48.
Definition specActor (onGround : bool) : Player.t :=
  Player.mk 100 352 28 44 0 0 onGround 1%Z.

(** Standing on the level's ground at the spawn column. *)
Definition standing : Player.t := Player.mk 100 356 28 44 0 0 true 1%Z.

(** Standing on the level's ground further right, at [x = 900]: the ground
    spans [-400 .. 1200]. *)
Definition standingRight : Player.t := Player.mk 900 356 28 44 0 0 true 1%Z.

(** Rising under the first floating platform, whose underside is at
    [y = 344]. *)
Definition rising : Player.t := Player.mk 250 346 28 44 0 (-300) false 1%Z.

(** Moving right at 200 px/s, 10 px short of the left face of a wall. *)
Definition wall : Platform.t := Platform.mk 200 300 100 100.

(** 2 px short of the wall, and 10 px short of it with [right] held. *)
Definition runnerClose : Player.t := Player.mk 170 320 28 44 200 0 false 1%Z.
Definition holdRight : Input.t := Input.mk false true false false.

(** Sliding at 260 px/s on a ledge 100 px wide, 10 px from its right end. *)
Definition ledge : Platform.t := Platform.mk 0 400 100 48.
Definition sliding : Player.t := Player.mk 90 356 28 44 260 0 true 1%Z.

(** Falling at 50 px/s above the level, as a paused game leaves the
    cells: [lastRef] is reset. *)
Definition midAir : Player.t := Player.mk 100 200 28 44 0 50 false 1%Z.

(** Drifting in the air. *)
Definition drifting : Player.t := Player.mk 100 200 28 44 100 0 false 1%Z.

(** ** Input handlers (lines 62-83 and 360-371) *)

(** [Array.prototype.includes] on a list of key names. *)
Definition includes (ks : list string) (k : string) : bool :=
  existsb (String.eqb k) ks.

(** [onKey], lines 62-83, on [k = e.key.toLowerCase()]. The result is the
    input cell and whether [e.preventDefault()] was called. *)
Definition onKey (k : string) (down : bool) (inp : Input.t)
    : Input.t * bool :=
  let '(inp, prevented) :=
    if includes ["arrowleft"; "a"]%string k then
      (Input.mk down (Input.right inp) (Input.jump inp)
         (Input.jumpPressed inp), true)
    else (inp, false) in
  let '(inp, prevented) :=
    if includes ["arrowright"; "d"]%string k then
      (Input.mk (Input.left inp) down (Input.jump inp)
         (Input.jumpPressed inp), true)
    else (inp, prevented) in
  let '(inp, prevented) :=
    if includes ["arrowup"; "w"; " "]%string k then
      (if down then
         let jumpPressed :=
           if negb (Input.jump inp) then true else Input.jumpPressed inp in
         Input.mk (Input.left inp) (Input.right inp) true jumpPressed
       else
         Input.mk (Input.left inp) (Input.right inp) false
           (Input.jumpPressed inp),
       true)
    else (inp, prevented) in
  let prevented :=
    if includes [" "; "spacebar"]%string k then true else prevented in
  (inp, prevented).

(** The argument type ["left" | "right" | "jump"] of [setInput]. *)
Inductive Button : Type := ButtonLeft | ButtonRight | ButtonJump.

(** [setInput], lines 360-371. *)
Definition setInput (key : Button) (down : bool) (inp : Input.t) : Input.t :=
  match key with
  | ButtonJump =>
      if down then
        let jumpPressed :=
          if negb (Input.jump inp) then true else Input.jumpPressed inp in
        Input.mk (Input.left inp) (Input.right inp) true jumpPressed
      else
        Input.mk (Input.left inp) (Input.right inp) false
          (Input.jumpPressed inp)
  | ButtonLeft =>
      Input.mk down (Input.right inp) (Input.jump inp) (Input.jumpPressed inp)
  | ButtonRight =>
      Input.mk (Input.left inp) down (Input.jump inp) (Input.jumpPressed inp)
  end.

(** The key names [onKey] reacts to; the first seven write the input cell. *)
Definition inputKeys : list string :=
  ["arrowleft"; "a"; "arrowright"; "d"; "arrowup"; "w"; " "]%string.

Definition handledKeys : list string := (inputKeys ++ ["spacebar"])%list%string.

(** ** Sessions: key events, pointer events and frames in any order *)

Inductive Event : Type :=
| KeyEvent (k : string) (down : bool)
| PointerEvent (key : Button) (down : bool)
| FrameEvent (dt : Q).

Definition handle (plats : list Platform.t) (ev : Event) (w : World) : World :=
  match ev with
  | KeyEvent k down => withInput (fst (onKey k down (input w))) w
  | PointerEvent key down => withInput (setInput key down (input w)) w
  | FrameEvent dt => frame plats dt w
  end.

Definition play (plats : list Platform.t) (evs : list Event) (w : World)
    : World :=
  fold_left (fun w ev => handle plats ev w) evs w.

Definition isFrame (ev : Event) : bool :=
  match ev with FrameEvent _ => true | _ => false end.

(** The test of line 230 on the cells as a frame finds them. *)
Definition jumpFires (w : World) : bool :=
  Input.jumpPressed (input w) && Player.onGround (player w).

(** The number of frames of a session on which the jump branch of line 230
    is taken. *)
Fixpoint launches (plats : list Platform.t) (evs : list Event) (w : World)
    : nat :=
  match evs with
  | [] => O
  | ev :: rest =>
      ((match ev with
        | FrameEvent _ => if jumpFires w then 1 else 0
        | _ => 0
        end) + launches plats rest (handle plats ev w))%nat
  end.

Definition isJumpKey (k : string) : bool :=
  includes ["arrowup"; "w"; " "]%string k.

(** Events that release the jump key or button. *)
Definition releasesJump (ev : Event) : bool :=
  match ev with
  | KeyEvent k false => isJumpKey k
  | PointerEvent ButtonJump false => true
  | _ => false
  end.

Definition jumpReleases (evs : list Event) : nat :=
  List.length (filter releasesJump evs).

Definition b2n (b : bool) : nat := if b then 1%nat else 0%nat.

(** Frames of a session all have a delta that is not negative. *)
Definition forwardInTime (evs : list Event) : Prop :=
  Forall (fun ev => match ev with FrameEvent dt => 0 <= dt | _ => True end)
    evs.

(** ** What holds of every world a session reaches *)

Definition wellFormed (w0 h0 : Q) (w : World) : Prop :=
  Player.w (player w) = w0 /\ Player.h (player w) = h0
  /\ Qabs (Player.vx (player w)) <= MOVE_MAX
  /\ (Player.facing (player w) = 1%Z \/ Player.facing (player w) = (-1)%Z)
  /\ (Player.onGround (player w) = true -> Player.vy (player w) == 0)
  /\ Camera.y (camera w) == 0.

(** The actor is airborne, not rising, and its feet are below the top of
    every platform. *)
Definition fallen (plats : list Platform.t) (w : World) : Prop :=
  Player.onGround (player w) = false
  /\ 0 <= Player.vy (player w)
  /\ 0 <= Player.h (player w)
  /\ forall q, In q plats ->
       Platform.y q < Player.y (player w) + Player.h (player w).

(** The landing test of lines 117-122 on the pose before the frame and the
    velocity the integrator produced. *)
Definition landsOn (pl : Player.t) (dtr px py vy : Q) (p : Platform.t)
    : Prop :=
  overlapsX pl px p
  /\ py + Player.h pl <= Platform.y p
  /\ py + Player.h pl + vy * dtr >= Platform.y p.

(** No platform that the resolver examines for actor [p] has its underside
    at or above the actor's head within [reach] of it. *)
Definition headroom (plats : list Platform.t) (p : Player.t) (reach : Q)
    : Prop :=
  forall q, In q plats ->
    near (Player.x p) (Player.y p) q = true ->
    ~ (Platform.y q + Platform.h q <= Player.y p
       /\ Player.y p - reach <= Platform.y q + Platform.h q).

(** No platform that the resolver examines for actor [p] stands beside it:
    none overlaps its vertical extent. *)
Definition nothingBeside (plats : list Platform.t) (p : Player.t) : Prop :=
  forall q, In q plats ->
    near (Player.x p) (Player.y p) q = true ->
    ~ overlapsY p (Player.y p) q.

(** ** The loop's teardown (lines 194-198): [lastRef] is reset *)

Definition cleanup (w : World) : World :=
  mkWorld (player w) (input w) (camera w) (dtRef w) None.

(** ** Drawing (lines 50-58 and 280-286) *)

Module Rect.
Record t : Type := mk { x : Q; y : Q; w : Q; h : Q }.
End Rect.

(** The two [fillRect] calls of lines 283 and 286 for one platform: the
    grass strip, then the dirt body. *)
Definition platformFills (p : Platform.t) : Rect.t * Rect.t :=
  (Rect.mk (Platform.x p) (Platform.y p) (Platform.w p)
     (Qmin 6 (Platform.h p)),
   Rect.mk (Platform.x p) (Platform.y p + Qmin 6 (Platform.h p))
     (Platform.w p) (Platform.h p - Qmin 6 (Platform.h p))).

(** Line 52, [window.devicePixelRatio || 1] clamped to [1, 2]; the only
    falsy rational is 0. *)
Definition pixelRatio (devicePixelRatio : Q) : Q :=
  Qmax 1 (Qmin 2 (if Qeq_bool devicePixelRatio 0 then 1
                  else devicePixelRatio)).

(** Lines 54-55: the backing-store size for a CSS box. *)
Definition canvasSize (devicePixelRatio rectW rectH : Q) : Z * Z :=
  let dpr := pixelRatio devicePixelRatio in
  (Qfloor (rectW * dpr), Qfloor (rectH * dpr)).

(** ** Reading the boolean tests *)

Lemma Qlt_bool_spec (a b : Q) : BoolSpec (a < b) (b <= a) (a <? b).
Proof.
  unfold Qlt_bool. destruct (Qle_bool b a) eqn:E; constructor.
  - now apply Qle_bool_iff.
  - apply Qnot_le_lt. intro H. apply Qle_bool_iff in H. congruence.
Qed.

Lemma Qle_bool_spec (a b : Q) : BoolSpec (a <= b) (b < a) (a <=? b).
Proof.
  destruct (Qle_bool a b) eqn:E; constructor.
  - now apply Qle_bool_iff.
  - apply Qnot_le_lt. intro H. apply Qle_bool_iff in H. congruence.
Qed.

Lemma Qabs_cases (a : Q) :
  (0 <= a /\ Qabs a == a) \/ (a <= 0 /\ Qabs a == - a).
Proof.
  destruct (Qlt_le_dec a 0) as [H | H].
  - right. split; [lra | apply Qabs_neg; lra].
  - left. split; [lra | now apply Qabs_pos].
Qed.

(** Name every [Qabs], [Qmin] and [Qmax] term and keep its defining cases,
    so that linear arithmetic can finish. *)
Ltac qnames :=
  repeat match goal with
  | |- context [Qabs ?a] =>
      let v := fresh "v" in
      pose proof (Qabs_cases a); set (v := Qabs a) in *; clearbody v
  | H : context [Qabs ?a] |- _ =>
      let v := fresh "v" in
      pose proof (Qabs_cases a); set (v := Qabs a) in *; clearbody v
  | |- context [Qmin ?a ?b] =>
      let v := fresh "v" in
      pose proof (Q.min_spec a b); set (v := Qmin a b) in *; clearbody v
  | H : context [Qmin ?a ?b] |- _ =>
      let v := fresh "v" in
      pose proof (Q.min_spec a b); set (v := Qmin a b) in *; clearbody v
  | |- context [Qmax ?a ?b] =>
      let v := fresh "v" in
      pose proof (Q.max_spec a b); set (v := Qmax a b) in *; clearbody v
  | H : context [Qmax ?a ?b] |- _ =>
      let v := fresh "v" in
      pose proof (Q.max_spec a b); set (v := Qmax a b) in *; clearbody v
  end.

(** Divisions by a literal become multiplications by its inverse. *)
Ltac qdivs :=
  unfold Qdiv in *;
  repeat match goal with
  | |- context [Qinv (Qmake ?n ?d)] =>
      let c := eval compute in (Qinv (Qmake n d)) in
      change (Qinv (Qmake n d)) with c in *
  | H : context [Qinv (Qmake ?n ?d)] |- _ =>
      let c := eval compute in (Qinv (Qmake n d)) in
      change (Qinv (Qmake n d)) with c in *
  end.

Ltac qarith := qdivs; qnames; intuition lra.

Lemma Qlt_bool_true a b : (a <? b) = true -> a < b.
Proof. now destruct (Qlt_bool_spec a b). Qed.

Lemma Qlt_bool_false a b : (a <? b) = false -> b <= a.
Proof. now destruct (Qlt_bool_spec a b). Qed.

Lemma Qle_bool_true a b : (a <=? b) = true -> a <= b.
Proof. now destruct (Qle_bool_spec a b). Qed.

Lemma Qle_bool_false a b : (a <=? b) = false -> b < a.
Proof. now destruct (Qle_bool_spec a b). Qed.

(** Turn the recorded outcomes of boolean tests into propositions. *)
Ltac qprops :=
  repeat match goal with
  | H : (_ && _) = true |- _ => apply andb_true_iff in H; destruct H
  | H : (_ && _) = false |- _ => apply andb_false_iff in H; destruct H
  | H : negb _ = true |- _ => apply negb_true_iff in H
  | H : negb _ = false |- _ => apply negb_false_iff in H
  | H : Qlt_bool _ _ = true |- _ => apply Qlt_bool_true in H
  | H : Qlt_bool _ _ = false |- _ => apply Qlt_bool_false in H
  | H : Qle_bool _ _ = true |- _ => apply Qle_bool_true in H
  | H : Qle_bool _ _ = false |- _ => apply Qle_bool_false in H
  end.

(** Case analysis on the conditionals of the goal, innermost first. *)
Ltac branches :=
  repeat match goal with
  | |- context [if ?b then _ else _] =>
      lazymatch b with
      | context [if _ then _ else _] => fail
      | _ => idtac
      end;
      let E := fresh "E" in destruct b eqn:E; cbv beta iota
  end.

(** ** Invariants of the resolution loop *)

Lemma resolveLoop_inv (P : Res.t -> Prop) pl dtr px py cands :
  (forall s p, In p cands -> P s -> P (resolveStep pl dtr px py s p)) ->
  forall s, P s -> P (resolveLoop pl dtr px py cands s).
Proof.
  unfold resolveLoop. induction cands as [| q l IH]; intros Hstep s Hs.
  - exact Hs.
  - simpl. apply IH.
    + intros s' p Hp. apply Hstep. now right.
    + apply Hstep; [now left | exact Hs].
Qed.

(** The vertical velocity leaves an iteration as it entered it, or as 0;
    and when [onGround] is set by the iteration it leaves as 0. *)
Lemma resolveStep_vy pl dtr px py s p :
  let s' := resolveStep pl dtr px py s p in
  (Res.vy s' = Res.vy s /\ Res.onGround s' = Res.onGround s) \/ Res.vy s' = 0.
Proof.
  unfold resolveStep; simpl.
  repeat match goal with
  | |- context [if ?b then _ else _] => destruct b
  end; auto.
Qed.

Lemma resolveStep_vx pl dtr px py s p :
  let s' := resolveStep pl dtr px py s p in
  Res.vx s' = Res.vx s \/ Res.vx s' = 0.
Proof.
  unfold resolveStep; simpl.
  repeat match goal with
  | |- context [if ?b then _ else _] => destruct b
  end; auto.
Qed.

Lemma resolveLoop_vy pl dtr px py cands s :
  let s' := resolveLoop pl dtr px py cands s in
  (Res.vy s' = Res.vy s /\ Res.onGround s' = Res.onGround s) \/ Res.vy s' = 0.
Proof.
  apply (resolveLoop_inv
    (fun s' => (Res.vy s' = Res.vy s /\ Res.onGround s' = Res.onGround s)
               \/ Res.vy s' = 0)); [| now left].
  intros s1 p _ H1.
  destruct (resolveStep_vy pl dtr px py s1 p) as [[Ev Eg] | E0]; [| now right].
  destruct H1 as [[Hv Hg] | H0].
  - left. split; congruence.
  - right. congruence.
Qed.

Lemma resolveLoop_vx pl dtr px py cands s :
  let s' := resolveLoop pl dtr px py cands s in
  Res.vx s' = Res.vx s \/ Res.vx s' = 0.
Proof.
  apply (resolveLoop_inv
    (fun s' => Res.vx s' = Res.vx s \/ Res.vx s' = 0)); [| now left].
  intros s1 p _ H1.
  destruct (resolveStep_vx pl dtr px py s1 p) as [E | E]; [| now right].
  destruct H1 as [H | H]; [left | right]; congruence.
Qed.

(** Projections of [update]. *)
Lemma update_vy plats dt w :
  Player.vy (player (update plats dt w)) =
  let p := i_player (integrate dt (input w) (player w)) in
  Res.vy (resolveCollisions plats p (dtRef w)
            (Player.x p) (Player.y p) (Player.vx p) (Player.vy p)).
Proof.
  unfold update, applyResolution. simpl.
  destruct (i_player (integrate dt (input w) (player w))); reflexivity.
Qed.

Lemma update_vx plats dt w :
  Player.vx (player (update plats dt w)) =
  let p := i_player (integrate dt (input w) (player w)) in
  Res.vx (resolveCollisions plats p (dtRef w)
            (Player.x p) (Player.y p) (Player.vx p) (Player.vy p)).
Proof.
  unfold update, applyResolution. simpl.
  destruct (i_player (integrate dt (input w) (player w))); reflexivity.
Qed.

Lemma update_onGround plats dt w :
  Player.onGround (player (update plats dt w)) =
  let p := i_player (integrate dt (input w) (player w)) in
  Res.onGround (resolveCollisions plats p (dtRef w)
            (Player.x p) (Player.y p) (Player.vx p) (Player.vy p)).
Proof.
  unfold update, applyResolution. simpl.
  destruct (i_player (integrate dt (input w) (player w))); reflexivity.
Qed.

(** What the integrator leaves in the velocity cells. *)
Lemma integrate_vy dt inp p :
  Player.vy (i_player (integrate dt inp p)) =
  if Input.jumpPressed inp && Player.onGround p then - JUMP_VEL
  else Player.vy p + GRAVITY * dt.
Proof.
  unfold integrate, gravityAndJump, moveHorizontal.
  destruct p as [x y w h vx vy og f]; simpl.
  repeat match goal with
  | |- context [if ?b then _ else _] => destruct b; simpl
  end; reflexivity.
Qed.

Lemma integrate_onGround dt inp p :
  Player.onGround (i_player (integrate dt inp p)) =
  if Input.jumpPressed inp && Player.onGround p then false
  else Player.onGround p.
Proof.
  unfold integrate, gravityAndJump, moveHorizontal.
  destruct p as [x y w h vx vy og f]; simpl.
  repeat match goal with
  | |- context [if ?b then _ else _] => destruct b; simpl
  end; reflexivity.
Qed.

Lemma integrate_jumpPressed dt inp p :
  Input.jumpPressed (i_input (integrate dt inp p)) = false.
Proof.
  unfold integrate, gravityAndJump, moveHorizontal.
  destruct p as [x y w h vx vy og f]; simpl.
  repeat match goal with
  | |- context [if ?b then _ else _] => destruct b; simpl
  end; reflexivity.
Qed.

Lemma integrate_vx_clamped dt inp p :
  let v := Player.vx (i_player (integrate dt inp p)) in
  - MOVE_MAX <= v /\ v <= MOVE_MAX.
Proof.
  unfold integrate, gravityAndJump, moveHorizontal, MOVE_MAX.
  destruct p as [x y w h vx vy og f]; simpl.
  repeat match goal with
  | |- context [if ?b then _ else _] => destruct b; simpl
  end; qarith.
Qed.

(** The delta of the frame loop never exceeds the cap, and the first frame
    has delta 0. *)
Lemma loopDelta_clamped t w :
  loopDelta t w <= 1 / 30
  /\ (lastRef w = None -> loopDelta t w == 0).
Proof.
  unfold loopDelta. split; [apply Q.le_min_l |].
  intros ->. qarith.
Qed.

(** ** The tick *)

(** C10: at the end of every tick, [onGround] set implies [vy] is 0. *)
Theorem onGround_implies_vy_zero plats dt w :
  Player.onGround (player (update plats dt w)) = true ->
  Player.vy (player (update plats dt w)) = 0.
Proof.
  rewrite update_vy, update_onGround. cbv zeta.
  set (p := i_player (integrate dt (input w) (player w))).
  unfold resolveCollisions.
  destruct (resolveLoop_vy p (dtRef w) (Player.x p) (Player.y p)
              (filter (near (Player.x p) (Player.y p)) plats)
              (Res.mk (Player.x p) (Player.y p) (Player.vx p) (Player.vy p) false))
    as [[_ Hg] | H0]; [| intros _; exact H0].
  cbn [Res.onGround] in Hg. intro H. congruence.
Qed.

Lemma onGround_implies_vy_zero_witness :
  let w := mkWorld standing noInput camera0 (1 / 60) None in
  Player.onGround (player (update platforms (1 / 60) w)) = true
  /\ Player.vy (player (update platforms (1 / 60) w)) = 0.
Proof.
  cbv zeta. split.
  - vm_compute. reflexivity.
  - apply (onGround_implies_vy_zero platforms (1 / 60)
             (mkWorld standing noInput camera0 (1 / 60) None)).
    vm_compute. reflexivity.
Defined.

Lemma frame_input plats dt w :
  input (frame plats dt w) = i_input (integrate dt (input w) (player w)).
Proof. reflexivity. Qed.

Lemma run_snoc plats dts dt w :
  run plats (dts ++ [dt]) w = frame plats dt (run plats dts w).
Proof. unfold run. now rewrite fold_left_app. Qed.

Lemma run_jumpPressed plats dts w :
  dts <> [] -> Input.jumpPressed (input (run plats dts w)) = false.
Proof.
  destruct dts as [| d l] using rev_ind; [congruence | intros _].
  rewrite run_snoc, frame_input. apply integrate_jumpPressed.
Qed.

(** C6: with [jumpPressed] and [onGround] both set, the integrator leaves
    [vy] at exactly -720 (not the gravity-incremented value) and clears
    [onGround]; the integrator and the whole frame always leave
    [jumpPressed] cleared; hence on any frame that follows at least one
    frame without a new key event the jump branch is not taken: the
    integrator just adds gravity and leaves [onGround] alone. *)
Theorem jump_edge_consumed :
  (forall dt inp p,
      Input.jumpPressed inp = true -> Player.onGround p = true ->
      Player.vy (i_player (integrate dt inp p)) = -720
      /\ - JUMP_VEL = -720
      /\ Player.onGround (i_player (integrate dt inp p)) = false)
  /\ (forall dt inp p,
      Input.jumpPressed (i_input (integrate dt inp p)) = false)
  /\ (forall plats dt w,
      Input.jumpPressed (input (frame plats dt w)) = false)
  /\ (forall plats dt dts dt' w,
      let w' := run plats (dt :: dts) w in
      let i := integrate dt' (input w') (player w') in
      Player.vy (i_player i) = Player.vy (player w') + GRAVITY * dt'
      /\ Player.onGround (i_player i) = Player.onGround (player w')).
Proof.
  split; [| split; [| split]].
  - intros dt inp p Hj Hg.
    rewrite integrate_vy, integrate_onGround, Hj, Hg. now simpl.
  - apply integrate_jumpPressed.
  - intros plats dt w. rewrite frame_input. apply integrate_jumpPressed.
  - intros plats dt dts dt' w w' i. subst i.
    rewrite integrate_vy, integrate_onGround.
    subst w'. rewrite run_jumpPressed by discriminate. now simpl.
Qed.

Lemma jump_edge_consumed_witness :
  Player.vy (i_player (integrate (1 / 60)
                         (Input.mk false false true true) standing)) = -720
  /\ Player.onGround (i_player (integrate (1 / 60)
                         (Input.mk false false true true) standing)) = false.
Proof.
  destruct jump_edge_consumed as [H _].
  destruct (H (1 / 60) (Input.mk false false true true) standing
              eq_refl eq_refl) as [Hv [_ Hg]].
  split; [exact Hv | exact Hg].
Defined.

(** C7: whatever the starting pose, the inputs and the deltas of a run, [vx]
    as the integrator leaves it is within [-MOVE_MAX, MOVE_MAX] = [-260, 260]
    on every frame. *)
Theorem speed_clamp plats script w :
  MOVE_MAX = 260
  /\ Forall (fun v => Qabs v <= MOVE_MAX) (integratedVxs plats script w).
Proof.
  split; [reflexivity |].
  revert w. induction script as [| [inp dt] rest IH]; intro w; simpl.
  - constructor.
  - constructor; [| apply IH].
    pose proof (integrate_vx_clamped dt inp (player w)) as H. cbv zeta in H.
    apply Qabs_Qle_condition. exact H.
Qed.

(** The vertical outcome of one iteration, by whether a test fired. *)
Lemma resolveStep_vertical pl dtr px py st q :
  let st' := resolveStep pl dtr px py st q in
  if landingTest pl dtr px py st q || bumpTest pl dtr px py st q
  then Res.vy st' = 0
  else Res.vy st' = Res.vy st /\ Res.onGround st' = Res.onGround st.
Proof.
  unfold resolveStep, bumpTest, landingTest.
  cbn [Res.nx Res.ny Res.vx Res.vy Res.onGround].
  destruct (_ && _ && _ && (_ + Player.h pl + _ >=? _)) eqn:L;
    cbn [orb]; cbv beta iota.
  - branches; reflexivity.
  - branches; [reflexivity | split; reflexivity].
Qed.

Lemma resolveLoop_vertical pl dtr px py cands :
  forall st,
  let st' := resolveLoop pl dtr px py cands st in
  Res.vy st' = (if verticalHit pl dtr px py cands st then 0 else Res.vy st)
  /\ (verticalHit pl dtr px py cands st = false ->
      Res.onGround st' = Res.onGround st).
Proof.
  induction cands as [| q l IH]; intro st.
  - cbn. now split.
  - change (resolveLoop pl dtr px py (q :: l) st)
      with (resolveLoop pl dtr px py l (resolveStep pl dtr px py st q)).
    cbn [verticalHit].
    pose proof (resolveStep_vertical pl dtr px py st q) as S.
    destruct (IH (resolveStep pl dtr px py st q)) as [Iv Ig].
    cbv zeta in *.
    destruct (landingTest pl dtr px py st q || bumpTest pl dtr px py st q).
    + cbn [orb]. split; [| discriminate].
      rewrite Iv, S. now destruct (verticalHit _ _ _ _ l _).
    + cbn [orb]. destruct S as [Sv Sg]. split.
      * rewrite Iv, Sv. reflexivity.
      * intro H. rewrite (Ig H). exact Sg.
Qed.

(** C8, as the code has it. On a frame that starts airborne, the integrator
    leaves [vy + GRAVITY * dt], whatever its magnitude. If no landing and no
    head bump fires in the resolver on that frame, the frame ends with that
    value and still airborne: strictly more than before when [dt > 0], and
    the same as before when [dt = 0]. If one fires, the frame ends with
    [vy = 0]. *)
Theorem gravity_monotone plats dt w :
  Player.onGround (player w) = false ->
  let v := Player.vy (player w) in
  let w' := frame plats dt w in
  let hit :=
    collides plats dt
      (mkWorld (player w) (input w) (camera w) dt (lastRef w)) in
  Player.vy (i_player (integrate dt (input w) (player w))) = v + GRAVITY * dt
  /\ (hit = false ->
      Player.vy (player w') = v + GRAVITY * dt
      /\ Player.onGround (player w') = false
      /\ (0 < dt -> v < Player.vy (player w'))
      /\ (dt == 0 -> Player.vy (player w') == v))
  /\ (hit = true -> Player.vy (player w') = 0).
Proof.
  intros Hair v w' hit.
  assert (Hi : Player.vy (i_player (integrate dt (input w) (player w)))
               = v + GRAVITY * dt).
  { rewrite integrate_vy, Hair, andb_false_r. reflexivity. }
  split; [exact Hi |].
  subst w' hit. unfold frame, collides.
  rewrite update_vy, update_onGround. cbv zeta.
  cbn [player input dtRef].
  set (p := i_player (integrate dt (input w) (player w))) in *.
  unfold resolveCollisions.
  match goal with
  | |- context [resolveLoop ?a ?b ?c ?d ?l ?s] =>
      destruct (resolveLoop_vertical a b c d l s) as [Ev Eg]
  end.
  cbv zeta in Ev, Eg. cbn [Res.vy Res.onGround] in Ev, Eg.
  split.
  - intro H. rewrite Ev, (Eg H), H, Hi.
    split; [reflexivity | split; [reflexivity | split]].
    + intro Hdt. unfold GRAVITY. lra.
    + intro Hdt. unfold GRAVITY. lra.
  - intro H. rewrite Ev, H. reflexivity.
Qed.

Lemma gravity_monotone_witness :
  Player.vy (player world0)
  < Player.vy (player (frame platforms (1 / 60) world0)).
Proof.
  pose proof (gravity_monotone platforms (1 / 60) world0 eq_refl) as K.
  cbv zeta in K. destruct K as (_ & K & _).
  assert (H : collides platforms (1 / 60)
                (mkWorld (player world0) (input world0) (camera world0)
                   (1 / 60) (lastRef world0)) = false)
    by (vm_compute; reflexivity).
  destruct (K H) as (_ & _ & L & _).
  apply L. reflexivity.
Defined.

(** ** Concrete frames *)

Ltac qeval :=
  repeat match goal with
  | |- _ /\ _ => split
  | |- ~ _ => intro
  | H : _ /\ _ |- _ => destruct H
  end;
  vm_compute in *; solve [reflexivity | discriminate | congruence | tauto].

(** C1: the actor rises at 300 px/s, 2 px under the underside (y = 344) of
    the first floating platform, and the frame lasts 1/60 s. The head-bump
    test holds for that platform, nothing lands, and the resolver returns
    [ny = 344] with [vy = 0]; yet the frame ends with the integrated
    [y = 3074/9] (about 341.6), inside the platform, not 344. *)
Theorem head_bump_snap_is_overwritten :
  let w := scene rising noInput in
  let dt := 1 / 60 in
  let q := Platform.mk 200 320 (TILE * 3) (TILE / 2) in
  let p := i_player (integrate dt (input w) (player w)) in
  let res := resolveCollisions platforms p dt
               (Player.x p) (Player.y p) (Player.vx p) (Player.vy p) in
  let p' := player (frame platforms dt w) in
  In q platforms
  /\ headBump p dt (Player.x p) (Player.y p) (Player.vy p) q
  /\ Res.onGround res = false
  /\ Res.ny res == Platform.y q + Platform.h q
  /\ Platform.y q + Platform.h q == 344
  /\ Player.vy p' == 0
  /\ Player.onGround p' = false
  /\ Player.y p' == 3074 # 9
  /\ ~ Player.y p' == Platform.y q + Platform.h q.
Proof.
  cbv zeta. split; [right; left; reflexivity |].
  unfold headBump, overlapsX. qeval.
Qed.

(** C3: standing on the level's ground at [x = 900] with the velocity the
    integrator produces at [dt = 1/60], the filtered resolver discards the
    ground (its centre is 500 px away) and reports no contact, while the same
    loop over all platforms lands the actor. *)
Theorem broad_phase_drops_the_ground :
  let dt := 1 / 60 in
  let p := i_player (integrate dt noInput standingRight) in
  let filtered := resolveCollisions platforms p dt
                    (Player.x p) (Player.y p) (Player.vx p) (Player.vy p) in
  let exhaustive := resolveCollisionsExhaustive platforms p dt
                    (Player.x p) (Player.y p) (Player.vx p) (Player.vy p) in
  near (Player.x p) (Player.y p) (Platform.mk (-400) 400 1600 TILE) = false
  /\ Res.onGround filtered = false
  /\ Res.vy filtered == 100 # 3
  /\ Res.onGround exhaustive = true
  /\ Res.vy exhaustive == 0
  /\ Res.ny exhaustive == 356
  /\ Player.onGround (player (frame platforms dt (scene standingRight noInput)))
     = false
  /\ Player.y (player (frame platforms dt (scene standingRight noInput)))
     == 3209 # 9.
Proof. cbv zeta. qeval. Qed.

(** C2, the scenario as the specification gives it: the actor's feet are at
    396, 4 px above the platform, and the platform's centre column is 700 px
    from the actor. After one frame of 1/60 s the actor is airborne and
    falling, whether or not [onGround] was set before. And an actor that is
    on a platform's top with [vy = 0] and [onGround] set but [vx = 260]
    slides off a ledge in three frames of 1/30 s with no key held, and
    falls. *)
Lemma spec_rest_scenario_fails :
  let after og :=
    player (frame [specGround] (1 / 60) (scene (specActor og) noInput)) in
  let slid := player (run [ledge] [1 / 30; 1 / 30; 1 / 30]
                        (scene sliding noInput)) in
  ~ (Player.onGround (after true) = true /\ Player.vy (after true) == 0
     /\ Player.y (after true) == 356)
  /\ ~ (Player.onGround (after false) = true /\ Player.vy (after false) == 0
        /\ Player.y (after false) == 356)
  /\ Player.onGround (after true) = false
  /\ Player.vy (after true) == 100 # 3
  /\ Player.y (after true) == 3173 # 9
  /\ Player.y sliding + Player.h sliding == Platform.y ledge
  /\ overlapsX sliding (Player.x sliding) ledge
  /\ near (Player.x sliding) (Player.y sliding) ledge = true
  /\ Player.vy sliding == 0
  /\ Player.onGround sliding = true
  /\ ~ (Player.y slid == Player.y sliding /\ Player.onGround slid = true
        /\ Player.vy slid == 0).
Proof. cbv zeta beta. unfold overlapsX. qeval. Qed.



(** C8, on the frame the loop runs first after a start or a resume: its
    delta is 0, so an airborne actor with no key held ends the frame with
    the [vy] it had, although no landing and no head bump fires. *)
Lemma gravity_idle_on_first_frame :
  let w := scene midAir noInput in
  let w' := loop platforms 1000 w in
  Player.onGround (player w) = false
  /\ input w = noInput
  /\ loopDelta 1000 w == 0
  /\ collides platforms (loopDelta 1000 w)
       (mkWorld (player w) (input w) (camera w) (loopDelta 1000 w) (Some 1000))
     = false
  /\ Player.onGround (player w') = false
  /\ Player.vy (player w') == Player.vy (player w)
  /\ ~ Player.vy (player w) < Player.vy (player w')
  /\ ~ Player.vy (player world0)
        < Player.vy (player (loop platforms 1000 world0)).
Proof. cbv zeta. qeval. Qed.

(** ** Frames with a zero delta *)



(** The position cells that [integrate] leaves are those it was given. *)
Lemma integrate_pos dt inp p :
  let q := i_player (integrate dt inp p) in
  Player.x q = Player.x p /\ Player.y q = Player.y p
  /\ Player.w q = Player.w p /\ Player.h q = Player.h p.
Proof.
  unfold integrate, gravityAndJump, moveHorizontal.
  destruct p as [x y w h vx vy og f]; cbn.
  branches; cbn; auto.
Qed.

Lemma integrate_tentative dt inp p :
  let i := integrate dt inp p in
  i_nx i = Player.x p + Player.vx (i_player i) * dt
  /\ i_ny i = Player.y p + Player.vy (i_player i) * dt.
Proof.
  unfold integrate, gravityAndJump, moveHorizontal.
  destruct p as [x y w h vx vy og f]; cbn.
  branches; cbn; auto.
Qed.


Lemma applyResolution_fields res nx ny p :
  let p' := applyResolution res nx ny p in
  Player.vx p' = Res.vx res /\ Player.vy p' = Res.vy res
  /\ Player.onGround p' = Res.onGround res
  /\ Player.w p' = Player.w p /\ Player.h p' = Player.h p
  /\ Player.x p' = (if Qabs (nx - Res.nx res) >? 0.01 then nx else Res.nx res)
  /\ Player.y p' =
     (if negb (Res.onGround res) && (Qabs (ny - Res.ny res) >? 0.01)
      then ny else Res.ny res).
Proof. destruct p; cbn. repeat split. Qed.



(** ** Side blocks against a single platform *)



(** ** Resting on a platform *)

Lemma near_wd px px' py py' q :
  px == px' -> py == py' -> near px py q = near px' py' q.
Proof. intros Hx Hy. unfold near, Qlt_bool. now rewrite Hx, Hy. Qed.

Lemma rest_step_onGround pl dt px py st q :
  Res.onGround st = true ->
  Res.onGround (resolveStep pl dt px py st q) = true.
Proof.
  intro H. unfold resolveStep. cbn [Res.onGround]. rewrite H.
  now destruct (_ && _ && _ && _).
Qed.

Section Rest.
Variables (pl : Player.t) (dt x0 y0 px py : Q).
Hypothesis Hdt : 0 <= dt.
Hypothesis Hpx : px == x0.
Hypothesis Hpy : py == y0.

(** With [vx = 0] neither side block can fire. *)
Lemma rest_no_side_block nx vx q :
  nx == x0 -> vx == 0 ->
  (py + Player.h pl >? Platform.y q)
  && (py <? Platform.y q + Platform.h q)
  && (px + Player.w pl <=? Platform.x q)
  && (nx + Player.w pl + vx * dt >? Platform.x q) = false
  /\ (py + Player.h pl >? Platform.y q)
     && (py <? Platform.y q + Platform.h q)
     && (px >=? Platform.x q + Platform.w q)
     && (nx + vx * dt <? Platform.x q + Platform.w q) = false.
Proof.
  intros Hnx Hvx.
  assert (P : vx * dt == 0) by (rewrite Hvx; ring).
  split.
  - destruct (_ && _ && _ && _) eqn:E; [| reflexivity].
    exfalso. qprops. lra.
  - destruct (_ && _ && _ && _) eqn:E; [| reflexivity].
    exfalso. qprops. lra.
Qed.

(** Before the supporting platform is examined, any platform keeps [ny] at
    or below the resting [y] and [vy] at or above 0. *)
Lemma rest_step_before st q :
  restBefore x0 y0 st -> restBefore x0 y0 (resolveStep pl dt px py st q).
Proof.
  unfold restBefore. destruct st as [nx ny vx vy og].
  cbn [Res.nx Res.ny Res.vx Res.vy Res.onGround].
  intros (Hnx & Hvx & Hny & Hv).
  destruct (rest_no_side_block nx vx q Hnx Hvx) as [SL SR].
  assert (P : 0 <= vy * dt) by now apply Qmult_le_0_compat.
  unfold resolveStep. cbn [Res.nx Res.ny Res.vx Res.vy Res.onGround].
  rewrite SL, SR.
  split; [exact Hnx | split; [exact Hvx |]].
  branches; qprops; split; lra.
Qed.

(** The supporting platform lands the actor where it rests. *)
Lemma rest_step_support st s :
  x0 + Player.w pl > Platform.x s -> x0 < Platform.x s + Platform.w s ->
  y0 + Player.h pl == Platform.y s ->
  restBefore x0 y0 st -> restAfter x0 y0 (resolveStep pl dt px py st s).
Proof.
  unfold restBefore, restAfter. destruct st as [nx ny vx vy og].
  cbn [Res.nx Res.ny Res.vx Res.vy Res.onGround].
  intros Hs1 Hs2 Hs3 (Hnx & Hvx & Hny & Hv).
  destruct (rest_no_side_block nx vx s Hnx Hvx) as [SL SR].
  assert (P : 0 <= vy * dt) by now apply Qmult_le_0_compat.
  unfold resolveStep. cbn [Res.nx Res.ny Res.vx Res.vy Res.onGround].
  rewrite SL, SR.
  split; [exact Hnx | split; [exact Hvx |]].
  branches; qprops;
    (split; [| split]); try reflexivity; try discriminate; lra.
Qed.

(** Once landed there, every further platform leaves the actor there. *)
Lemma rest_step_after st q :
  restAfter x0 y0 st -> restAfter x0 y0 (resolveStep pl dt px py st q).
Proof.
  unfold restAfter. destruct st as [nx ny vx vy og].
  cbn [Res.nx Res.ny Res.vx Res.vy Res.onGround].
  intros (Hnx & Hvx & Hny & Hv & ->).
  destruct (rest_no_side_block nx vx q Hnx Hvx) as [SL SR].
  assert (P : vy * dt == 0) by (rewrite Hv; ring).
  unfold resolveStep. cbn [Res.nx Res.ny Res.vx Res.vy Res.onGround].
  rewrite SL, SR.
  split; [exact Hnx | split; [exact Hvx |]].
  branches; qprops;
    (split; [| split]); try reflexivity; try lra.
Qed.

Lemma rest_loop cands s :
  In s cands ->
  x0 + Player.w pl > Platform.x s -> x0 < Platform.x s + Platform.w s ->
  y0 + Player.h pl == Platform.y s ->
  forall st, restBefore x0 y0 st ->
  restAfter x0 y0 (resolveLoop pl dt px py cands st).
Proof.
  intros Hin Hs1 Hs2 Hs3.
  induction cands as [| q l IH]; intros st Hst; [contradiction |].
  change (resolveLoop pl dt px py (q :: l) st)
    with (resolveLoop pl dt px py l (resolveStep pl dt px py st q)).
  destruct Hin as [<- | Hin].
  - apply (resolveLoop_inv (restAfter x0 y0)).
    + intros t p _ Ht. now apply rest_step_after.
    + now apply rest_step_support.
  - apply IH; [exact Hin | now apply rest_step_before].
Qed.
End Rest.

(** [vx] as the integrator leaves it for an actor at rest with no direction
    held. *)
Lemma integrate_vx_rest dt inp p :
  Input.left inp = false -> Input.right inp = false ->
  Player.onGround p = true -> Player.vx p == 0 ->
  Player.vx (i_player (integrate dt inp p)) == 0.
Proof.
  unfold integrate, gravityAndJump, moveHorizontal, MOVE_MAX.
  destruct p as [x y w h vx vy og f], inp as [l r j jp];
    cbn [Player.vx Player.onGround Input.left Input.right Input.jumpPressed].
  intros -> -> -> Hv. cbn [andb negb].
  branches; cbn [i_player Player.vx]; qprops; qarith.
Qed.

Section RestFrames.
Variables (plats : list Platform.t) (s : Platform.t) (x0 y0 w0 h0 : Q).
Hypothesis Hin : In s plats.
Hypothesis Hnear : near x0 y0 s = true.
Hypothesis Hover : x0 + w0 > Platform.x s /\ x0 < Platform.x s + Platform.w s.
Hypothesis Hfeet : y0 + h0 == Platform.y s.

Lemma resting_frame dt w :
  0 <= dt ->
  resting x0 y0 w0 h0 w -> resting x0 y0 w0 h0 (frame plats dt w).
Proof.
  intros Hdt (Hl & Hr & Hj & Hx & Hy & Hw & Hh & Hvx & Hvy & Hog).
  unfold resting. rewrite frame_input.
  unfold frame, update. cbn [player input camera dtRef lastRef].
  set (i := integrate dt (input w) (player w)).
  set (q := i_player i).
  destruct (integrate_pos dt (input w) (player w)) as (Px & Py & Pw & Ph).
  destruct (integrate_tentative dt (input w) (player w)) as (Tx & Ty).
  fold i in Tx, Ty. fold q in Tx, Ty. fold i q in Px, Py, Pw, Ph.
  assert (Qvx : Player.vx q == 0) by now apply integrate_vx_rest.
  assert (Qvy : Player.vy q == GRAVITY * dt).
  { subst q i. rewrite integrate_vy, Hj. cbn [andb]. rewrite Hvy. ring. }
  assert (Qx : Player.x q == x0) by now rewrite Px.
  assert (Qy : Player.y q == y0) by now rewrite Py.
  assert (Qw : Player.w q = w0) by congruence.
  assert (Qh : Player.h q = h0) by congruence.
  set (res := resolveCollisions plats q dt (Player.x q) (Player.y q)
                (Player.vx q) (Player.vy q)).
  assert (HR : restAfter x0 y0 res).
  { subst res. unfold resolveCollisions.
    apply (rest_loop q dt x0 y0 (Player.x q) (Player.y q) Hdt Qx Qy _ s).
    - apply filter_In. split; [exact Hin |].
      now rewrite (near_wd _ x0 _ y0 s Qx Qy).
    - rewrite Qw. tauto.
    - tauto.
    - now rewrite Qh.
    - unfold restBefore. cbn [Res.nx Res.ny Res.vx Res.vy Res.onGround].
      assert (0 <= GRAVITY * dt) by (unfold GRAVITY; lra).
      repeat split; try assumption; lra. }
  destruct HR as (Rx & Rvx & Ry & Rvy & Rg).
  destruct (applyResolution_fields res (i_nx i) (i_ny i) q)
    as (Fvx & Fvy & Fog & Fw & Fh & Fx & Fy).
  rewrite Fvx, Fvy, Fog, Fw, Fh, Fx, Fy, Rg.
  cbn [negb andb].
  assert (Hz : Player.vx q * dt == 0) by (rewrite Qvx; ring).
  repeat split; try assumption; try apply integrate_jumpPressed.
  - unfold integrate, gravityAndJump in i. subst i.
    destruct (moveHorizontal dt (input w) (player w)); cbn.
    destruct (_ && _); exact Hl.
  - unfold integrate, gravityAndJump in i. subst i.
    destruct (moveHorizontal dt (input w) (player w)); cbn.
    destruct (_ && _); exact Hr.
  - rewrite Tx. branches; qprops; [exfalso |]; qarith.
Qed.

Lemma resting_run dts w :
  forwardDeltas dts ->
  resting x0 y0 w0 h0 w -> resting x0 y0 w0 h0 (run plats dts w).
Proof.
  unfold run, forwardDeltas. revert w.
  induction dts as [| dt rest IH]; intros w Hd Hw; [exact Hw |].
  inversion Hd as [| ? ? Hdt Hrest]; subst.
  cbn [fold_left]. apply IH; [exact Hrest |]. now apply resting_frame.
Qed.
End RestFrames.

(** C2, as the code has it. An actor at rest on a platform's top (feet on the
    top edge, extents overlapping, [vx = vy = 0], [onGround] set), with no
    key held, stays there over any run of frames whose deltas are at least
    0, whatever the other platforms of the level: [y] and [x] do not
    change, [vy] and [vx] are 0 and [onGround] is set at the end. The one
    condition on the platform is that it passes the broad-phase test. On
    the level's ground, from [y = 356], one frame of 1/60 s gives
    [onGround], [vy = 0] and [y = 356]. *)
Theorem rest_is_kept :
  (forall plats s dts w,
      let p := player w in
      forwardDeltas dts ->
      Input.left (input w) = false -> Input.right (input w) = false ->
      Input.jumpPressed (input w) = false ->
      In s plats -> near (Player.x p) (Player.y p) s = true ->
      restsOn p s ->
      let p' := player (run plats dts w) in
      Player.y p' == Player.y p /\ Player.vy p' == 0
      /\ Player.onGround p' = true
      /\ Player.x p' == Player.x p /\ Player.vx p' == 0)
  /\ (let p' := player (frame platforms (1 / 60) (scene standing noInput)) in
      Player.onGround p' = true /\ Player.vy p' == 0 /\ Player.y p' == 356).
Proof.
  split; [| cbv zeta; qeval].
  intros plats s dts w p Hdts Hl Hr Hj Hin Hnear
    (Hfeet & Hover & Hvx & Hvy & Hog) p'.
  assert (H : resting (Player.x p) (Player.y p) (Player.w p) (Player.h p)
                (run plats dts w)).
  { apply (resting_run plats s _ _ _ _ Hin Hnear Hover Hfeet dts w Hdts).
    unfold resting. fold p. repeat split; try assumption; reflexivity. }
  destruct H as (_ & _ & _ & Hx' & Hy' & _ & _ & Hvx' & Hvy' & Hog').
  now repeat split.
Qed.

Lemma standing_clearBelow : clearBelow platforms standing (1 / 60).
Proof.
  intros q Hq _ _ [A _].
  repeat (destruct Hq as [<- | Hq]; [vm_compute in A; discriminate A |]).
  destruct Hq.
Qed.

Lemma standing_restsOn : restsOn standing (Platform.mk (-400) 400 1600 TILE).
Proof. unfold restsOn, overlapsX. qeval. Qed.

Lemma rest_is_kept_witness :
  let p' := player (run platforms [1 / 60; 0; 1 / 30]
                      (scene standing noInput)) in
  Player.y p' == 356 /\ Player.vy p' == 0 /\ Player.onGround p' = true.
Proof.
  pose proof (proj1 rest_is_kept platforms (Platform.mk (-400) 400 1600 TILE)
                [1 / 60; 0; 1 / 30] (scene standing noInput)) as K.
  cbv zeta in K.
  assert (Hdts : forwardDeltas [1 / 60; 0; 1 / 30]).
  { repeat constructor; vm_compute; discriminate. }
  pose proof (K Hdts eq_refl eq_refl eq_refl (or_introl eq_refl) eq_refl
                standing_restsOn) as K'.
  destruct K' as (Hy & Hvy & Hog & _).
  cbv zeta. split; [exact Hy | split; [exact Hvy | exact Hog]].
Defined.

(** ** The camera behind a stationary actor *)

Lemma integrate_vx_still dt inp p :
  Input.left inp = Input.right inp -> Player.vx p == 0 ->
  Player.vx (i_player (integrate dt inp p)) == 0.
Proof.
  unfold integrate, gravityAndJump, moveHorizontal, MOVE_MAX.
  destruct p as [x y w h vx vy og f], inp as [l r j jp];
    cbn [Player.vx Player.onGround Input.left Input.right Input.jumpPressed].
  intros -> Hv. destruct r; cbn [andb negb];
    branches; cbn [i_player Player.vx]; qprops; qarith.
Qed.

Lemma integrate_input dt inp p :
  Input.left (i_input (integrate dt inp p)) = Input.left inp
  /\ Input.right (i_input (integrate dt inp p)) = Input.right inp.
Proof.
  unfold integrate, gravityAndJump.
  destruct (moveHorizontal dt inp p); cbn.
  destruct (_ && _); cbn; auto.
Qed.

Lemma still_step pl dt px py st q :
  Res.nx st = px /\ Res.vx st == 0 ->
  let st' := resolveStep pl dt px py st q in
  Res.nx st' = px /\ Res.vx st' == 0.
Proof.
  destruct st as [nx ny vx vy og]. cbn [Res.nx Res.vx].
  intros [-> Hv].
  assert (Hz : vx * dt == 0) by (rewrite Hv; ring).
  unfold resolveStep. cbn [Res.nx Res.ny Res.vx Res.vy Res.onGround].
  destruct (_ && _ && _ && _) eqn:E1 at 1.
  { exfalso. clear - E1 Hz. qprops. lra. }
  destruct (_ && _ && _ && _) eqn:E2 at 1.
  { exfalso. clear - E1 E2 Hz. qprops; lra. }
  rewrite ?E1, ?E2. split; [reflexivity | exact Hv].
Qed.

Lemma still_frame plats dt x0 w0 w :
  still x0 w0 w ->
  still x0 w0 (frame plats dt w)
  /\ Camera.x (camera (frame plats dt w)) =
     Camera.x (camera w)
     + (x0 + w0 / 2 - 320 - Camera.x (camera w)) * Qmin 1 (10 * dt).
Proof.
  intros (Hin & Hx & Hw & Hv).
  unfold still. rewrite frame_input.
  unfold frame, update. cbn [player input camera dtRef lastRef].
  set (i := integrate dt (input w) (player w)).
  set (q := i_player i).
  destruct (integrate_pos dt (input w) (player w)) as (Px & Py & Pw & Ph).
  destruct (integrate_tentative dt (input w) (player w)) as (Tx & Ty).
  destruct (integrate_input dt (input w) (player w)) as (Il & Ir).
  fold i in Tx, Ty, Il, Ir. fold q in Tx, Ty. fold i q in Px, Py, Pw, Ph.
  assert (Qvx : Player.vx q == 0) by now apply integrate_vx_still.
  set (res := resolveCollisions plats q dt (Player.x q) (Player.y q)
                (Player.vx q) (Player.vy q)).
  assert (HR : Res.nx res = Player.x q /\ Res.vx res == 0).
  { subst res. unfold resolveCollisions.
    apply (resolveLoop_inv
      (fun st => Res.nx st = Player.x q /\ Res.vx st == 0)).
    - intros st p _ Hst. now apply still_step.
    - cbn [Res.nx Res.vx]. now split. }
  destruct HR as [Rx Rv].
  destruct (applyResolution_fields res (i_nx i) (i_ny i) q)
    as (Fvx & _ & _ & Fw & _ & Fx & _).
  assert (Hz : Player.vx q * dt == 0) by (rewrite Qvx; ring).
  assert (Ex : Player.x (applyResolution res (i_nx i) (i_ny i) q) = x0).
  { rewrite Fx, Tx, Rx, Px.
    destruct (Qlt_bool_spec 0.01
                (Qabs (Player.x (player w) + Player.vx q * dt
                       - Player.x (player w)))) as [E | E];
      [exfalso; qarith | exact Hx]. }
  split.
  - rewrite Il, Ir, Ex, Fw, Fvx, Pw. repeat split; assumption.
  - unfold followCamera, cameraTarget. cbn [Camera.x].
    rewrite Ex, Fw, Pw, Hw. reflexivity.
Qed.

Lemma frames_S plats dt n w :
  frames plats dt (S n) w = frame plats dt (frames plats dt n w).
Proof.
  revert w. induction n as [| n IH]; intro w; [reflexivity |].
  change (frames plats dt (S (S n)) w)
    with (frames plats dt (S n) (frame plats dt w)).
  rewrite IH. reflexivity.
Qed.

Lemma still_frames plats dt x0 w0 n w :
  still x0 w0 w -> still x0 w0 (frames plats dt n w).
Proof.
  intro H. induction n as [| n IH]; [exact H |].
  rewrite frames_S. now apply still_frame.
Qed.

(** A sequence that moves a fraction [k] of the way to [T] at each step. *)
Section Approach.
Variables (T k : Q) (c : nat -> Q).
Hypothesis Hk0 : 0 < k.
Hypothesis Hk1 : k <= 1.
Hypothesis Hrec : forall n, c (S n) == c n + (T - c n) * k.

Lemma scaled_between a :
  (0 <= a -> 0 <= a * k /\ a * k <= a)
  /\ (a <= 0 -> a <= a * k /\ a * k <= 0).
Proof. split; intros; split; nra. Qed.

Lemma approach_no_overshoot n :
  (c n <= T -> c n <= c (S n) /\ c (S n) <= T)
  /\ (T <= c n -> T <= c (S n) /\ c (S n) <= c n).
Proof.
  pose proof (Hrec n) as E.
  destruct (scaled_between (T - c n)) as [P N].
  split; intro H; [destruct P | destruct N]; lra.
Qed.

Lemma approach_distance n :
  Qabs (c (S n) - T) == (1 - k) * Qabs (c n - T).
Proof.
  pose proof (Hrec n) as E.
  destruct (scaled_between (T - c n)) as [P N].
  destruct (Qlt_le_dec (c n) T) as [H | H].
  - destruct P; [lra |].
    rewrite !Qabs_neg by lra. lra.
  - destruct N; [lra |].
    rewrite !Qabs_pos by lra. lra.
Qed.

Lemma approach_monotone n :
  Qabs (c (S n) - T) <= Qabs (c n - T)
  /\ (~ c n == T -> Qabs (c (S n) - T) < Qabs (c n - T)).
Proof.
  pose proof (approach_distance n) as E.
  pose proof (Qabs_nonneg (c n - T)) as H0.
  split.
  - nra.
  - intro Hne.
    assert (0 < Qabs (c n - T)).
    { destruct (Qabs_cases (c n - T)) as [[A B] | [A B]];
        destruct (Qeq_dec (c n) T); try contradiction; lra. }
    nra.
Qed.

Lemma approach_bound n :
  Qabs (c n - T) * (1 + inject_Z (Z.of_nat n) * k) <= Qabs (c 0%nat - T).
Proof.
  induction n as [| n IH].
  - change (inject_Z (Z.of_nat 0)) with 0. lra.
  - pose proof (approach_distance n) as E.
    pose proof (Qabs_nonneg (c n - T)) as H0.
    assert (Hm : 0 <= inject_Z (Z.of_nat n)).
    { change 0 with (inject_Z 0). rewrite <- Zle_Qle. lia. }
    assert (Hs : inject_Z (Z.of_nat (S n)) == inject_Z (Z.of_nat n) + 1).
    { rewrite Nat2Z.inj_succ. unfold Z.succ. now rewrite inject_Z_plus. }
    rewrite E, Hs.
    assert (0 <= Qabs (c n - T) * (inject_Z (Z.of_nat n) + 1) * k * k).
    { repeat apply Qmult_le_0_compat; lra. }
    lra.
Qed.

Lemma approach_limit eps :
  0 < eps -> exists N, forall n, (N <= n)%nat -> Qabs (c n - T) < eps.
Proof.
  intro He.
  set (z := Qabs (c 0%nat - T) / (k * eps)).
  exists (Z.to_nat (Qceiling z)). intros n Hn.
  assert (Hz : z <= inject_Z (Z.of_nat n)).
  { apply Qle_trans with (inject_Z (Qceiling z)); [apply Qle_ceiling |].
    rewrite <- Zle_Qle. lia. }
  assert (Hke : 0 < k * eps) by nra.
  assert (Hd : Qabs (c 0%nat - T) <= inject_Z (Z.of_nat n) * (k * eps)).
  { apply Qle_trans with (z * (k * eps)).
    - unfold z. field_simplify; [lra | lra].
    - apply Qmult_le_compat_r; lra. }
  pose proof (approach_bound n) as Hb.
  assert (Hm : 0 <= inject_Z (Z.of_nat n)).
  { change 0 with (inject_Z 0). rewrite <- Zle_Qle. lia. }
  assert (Hp : 0 < 1 + inject_Z (Z.of_nat n) * k) by nra.
  apply (Qmult_lt_r _ _ _ Hp). lra.
Qed.
End Approach.

Lemma frame_player_w plats dt w :
  Player.w (player (frame plats dt w)) = Player.w (player w).
Proof.
  unfold frame, update. cbn [player input camera dtRef lastRef].
  destruct (applyResolution_fields
              (resolveCollisions plats
                 (i_player (integrate dt (input w) (player w))) dt
                 (Player.x (i_player (integrate dt (input w) (player w))))
                 (Player.y (i_player (integrate dt (input w) (player w))))
                 (Player.vx (i_player (integrate dt (input w) (player w))))
                 (Player.vy (i_player (integrate dt (input w) (player w)))))
              (i_nx (integrate dt (input w) (player w)))
              (i_ny (integrate dt (input w) (player w)))
              (i_player (integrate dt (input w) (player w))))
    as (_ & _ & _ & Fw & _).
  rewrite Fw. apply integrate_pos.
Qed.

Lemma frames_player_w plats dt n w :
  Player.w (player (frames plats dt n w)) = Player.w (player w).
Proof.
  induction n as [| n IH]; [reflexivity |].
  now rewrite frames_S, frame_player_w.
Qed.

Lemma cameraAfter_S plats dt w n :
  Player.x (player (frames plats dt (S n) w)) == Player.x (player w) ->
  cameraAfter plats dt w (S n) ==
  cameraAfter plats dt w n
  + (cameraTarget (player w) - cameraAfter plats dt w n) * Qmin 1 (10 * dt).
Proof.
  intro Hx. unfold cameraAfter.
  assert (E : camera (frames plats dt (S n) w)
              = followCamera dt (player (frames plats dt (S n) w))
                  (camera (frames plats dt n w))).
  { rewrite frames_S. reflexivity. }
  rewrite E. unfold followCamera, cameraTarget. cbn [Camera.x].
  rewrite Hx, frames_player_w. reflexivity.
Qed.

(** *** In binary64 *)

Lemma cameraAfter64_add dt px pw a b :
  forall c,
  cameraAfter64 dt px pw c (a + b)
  = cameraAfter64 dt px pw (cameraAfter64 dt px pw c a) b.
Proof.
  induction a as [| a IH]; intro c; [reflexivity |].
  cbn [Nat.add cameraAfter64]. apply IH.
Qed.

Lemma cameraAfter64_S dt px pw n :
  forall c,
  cameraAfter64 dt px pw c (S n)
  = followCamera64 dt px pw (cameraAfter64 dt px pw c n).
Proof.
  induction n as [| n IH]; intro c; [reflexivity |].
  change (cameraAfter64 dt px pw c (S (S n)))
    with (cameraAfter64 dt px pw (followCamera64 dt px pw c) (S n)).
  rewrite IH. reflexivity.
Qed.

(** A camera value that one update leaves alone is never left. *)
Lemma cameraAfter64_fixed dt px pw c :
  followCamera64 dt px pw c = c ->
  forall n, cameraAfter64 dt px pw c n = c.
Proof.
  intros H n. induction n as [| n IH]; [reflexivity |].
  cbn [cameraAfter64]. rewrite H. exact IH.
Qed.

Lemma cameraAfter64_stalled dt px pw c0 m :
  followCamera64 dt px pw (cameraAfter64 dt px pw c0 m)
  = cameraAfter64 dt px pw c0 m ->
  forall n, (m <= n)%nat ->
  cameraAfter64 dt px pw c0 n = cameraAfter64 dt px pw c0 m.
Proof.
  intros H n Hn. replace n with (m + (n - m))%nat by lia.
  rewrite cameraAfter64_add. now apply cameraAfter64_fixed.
Qed.

Lemma approaches64_steps dt px pw m :
  forall c, approaches64 dt px pw c m = true ->
  forall n, (n < m)%nat ->
  PrimFloat.leb (px + pw / 2 - 320)%float (cameraAfter64 dt px pw c (S n))
  = true
  /\ PrimFloat.leb (cameraAfter64 dt px pw c (S n))
       (cameraAfter64 dt px pw c n) = true.
Proof.
  induction m as [| m IH]; intros c H n Hn; [lia |].
  cbn [approaches64] in H. cbv zeta in H.
  apply andb_true_iff in H. destruct H as [H Hrest].
  apply andb_true_iff in H. destruct H as [H1 H2].
  destruct n as [| n].
  - cbn [cameraAfter64]. now split.
  - change (cameraAfter64 dt px pw c (S (S n)))
      with (cameraAfter64 dt px pw (followCamera64 dt px pw c) (S n)).
    change (cameraAfter64 dt px pw c (S n))
      with (cameraAfter64 dt px pw (followCamera64 dt px pw c) n).
    apply (IH _ Hrest). lia.
Qed.

(** C9, in the code's doubles: with the actor at [x = 100], [w = 28], the
    camera starting at 0 and [dt = 1/60], the camera reaches
    -205.99999999999994 and stays there, 2^-44 short of the target -206. So
    for [eps = 2^-47] no tick count brings the distance below [eps], and the
    distance does not shrink strictly while it is nonzero. *)
Lemma camera_stalls_in_doubles :
  let dt := (1 / 60)%float in
  let target := (100 + 28 / 2 - 320)%float in
  let eps := 0x1p-47%float in
  let c := cameraAfter64 dt 100 28 0 in
  PrimFloat.ltb 0 dt = true
  /\ PrimFloat.ltb 0 eps = true
  /\ target = (-206)%float
  /\ (forall n, (300 <= n)%nat -> c n = c 300%nat)
  /\ PrimFloat.eqb (c 300%nat) target = false
  /\ PrimFloat.ltb (PrimFloat.abs (c 301%nat - target))
       (PrimFloat.abs (c 300%nat - target)) = false
  /\ ~ (exists N, forall n, (N <= n)%nat -> within64 target eps (c n) = true).
Proof.
  cbv zeta.
  assert (Hstall : forall n, (300 <= n)%nat ->
              cameraAfter64 (1 / 60) 100 28 0 n
              = cameraAfter64 (1 / 60) 100 28 0 300).
  { apply cameraAfter64_stalled. vm_compute. reflexivity. }
  split; [vm_compute; reflexivity |].
  split; [vm_compute; reflexivity |].
  split; [vm_compute; reflexivity |].
  split; [exact Hstall |].
  split; [vm_compute; reflexivity |].
  split; [vm_compute; reflexivity |].
  intros [N H]. specialize (H (N + 300)%nat ltac:(lia)).
  rewrite (Hstall (N + 300)%nat) in H by lia.
  vm_compute in H. discriminate H.
Qed.

(** C9, as the code has it. In exact arithmetic: over frames of a fixed
    delta [dt > 0] during which the actor's [x] stays where it is, the
    camera's [x] follows the update rule towards
    [target = actor.x + actor.w / 2 - 320]; its distance to the target never
    grows and shrinks strictly while nonzero, it never crosses the target,
    and for every [eps > 0] the distance is below [eps] from some frame on.
    In the code's doubles the approach stops at rounding level: from camera
    0 towards -206 at [dt = 1/60] the camera never moves away from the
    target nor across it, and from update 300 on it stays where it is,
    within 2^-43 of the target. *)
Theorem camera_converges :
  (forall plats dt w,
      0 < dt ->
      (forall n, Player.x (player (frames plats dt n w))
                 == Player.x (player w)) ->
      let target := Player.x (player w) + Player.w (player w) / 2 - 320 in
      let c := cameraAfter plats dt w in
      (forall n, c (S n) == c n + (target - c n) * Qmin 1 (10 * dt))
      /\ (forall n, Qabs (c (S n) - target) <= Qabs (c n - target))
      /\ (forall n, ~ c n == target ->
                    Qabs (c (S n) - target) < Qabs (c n - target))
      /\ (forall n, (c n <= target -> c n <= c (S n) /\ c (S n) <= target)
                    /\ (target <= c n ->
                        target <= c (S n) /\ c (S n) <= c n))
      /\ (forall eps, 0 < eps ->
            exists N, forall n, (N <= n)%nat -> Qabs (c n - target) < eps))
  /\ (let target := (100 + 28 / 2 - 320)%float in
      let c := cameraAfter64 (1 / 60) 100 28 0 in
      (forall n, PrimFloat.leb target (c (S n)) = true
                 /\ PrimFloat.leb (c (S n)) (c n) = true)
      /\ (forall n, (300 <= n)%nat -> c n = c 300%nat)
      /\ within64 target 0x1p-43 (c 300%nat) = true).
Proof.
  split.
  - intros plats dt w Hdt Hst target c.
    assert (Hk0 : 0 < Qmin 1 (10 * dt)) by (apply Q.min_glb_lt; lra).
    assert (Hk1 : Qmin 1 (10 * dt) <= 1) by apply Q.le_min_l.
    assert (Hrec : forall n,
              c (S n) == c n + (target - c n) * Qmin 1 (10 * dt)).
    { intro n. apply cameraAfter_S, Hst. }
    split; [exact Hrec | split; [| split; [| split]]].
    + intro n. apply (approach_monotone target _ c Hk0 Hk1 Hrec n).
    + intro n. apply (approach_monotone target _ c Hk0 Hk1 Hrec n).
    + intro n. apply (approach_no_overshoot target _ c Hk0 Hk1 Hrec n).
    + intro eps. apply (approach_limit target _ c Hk0 Hk1 Hrec eps).
  - cbv zeta.
    assert (Hstall : forall n, (300 <= n)%nat ->
                cameraAfter64 (1 / 60) 100 28 0 n
                = cameraAfter64 (1 / 60) 100 28 0 300).
    { apply cameraAfter64_stalled. vm_compute. reflexivity. }
    split; [| split; [exact Hstall | vm_compute; reflexivity]].
    intro n. destruct (Nat.lt_ge_cases n 300) as [Hn | Hn].
    + apply (approaches64_steps (1 / 60) 100 28 300 0); [| exact Hn].
      vm_compute. reflexivity.
    + rewrite (Hstall (S n)) by lia. rewrite (Hstall n) by exact Hn.
      split; vm_compute; reflexivity.
Qed.

(** From the initial world ([vx = 0], no key held) the actor falls and lands
    without moving horizontally. *)
Lemma world0_stationary n :
  Player.x (player (frames platforms (1 / 60) n world0))
  == Player.x (player world0).
Proof.
  assert (H : still (Player.x (player world0)) (Player.w (player world0))
                world0).
  { unfold still. repeat split; reflexivity. }
  destruct (still_frames platforms (1 / 60) _ _ n world0 H) as (_ & Hx & _).
  rewrite Hx. reflexivity.
Qed.

Lemma camera_converges_witness :
  exists N, forall n, (N <= n)%nat ->
    Qabs (cameraAfter platforms (1 / 60) world0 n - (100 + 28 / 2 - 320))
    < 1 / 1000.
Proof.
  pose proof (proj1 camera_converges platforms (1 / 60) world0) as K.
  assert (Hdt : 0 < 1 / 60) by reflexivity.
  assert (He : 0 < 1 / 1000) by reflexivity.
  pose proof (K Hdt world0_stationary) as K'. cbv zeta in K'.
  destruct K' as (_ & _ & _ & _ & L).
  exact (L (1 / 1000) He).
Defined.

(** ** Key and pointer handlers *)

(** X1: each on-screen button writes the input cell exactly as its keys
    do. *)
Theorem buttons_match_keys down inp :
  setInput ButtonLeft down inp = fst (onKey "arrowleft" down inp)
  /\ setInput ButtonLeft down inp = fst (onKey "a" down inp)
  /\ setInput ButtonRight down inp = fst (onKey "arrowright" down inp)
  /\ setInput ButtonRight down inp = fst (onKey "d" down inp)
  /\ setInput ButtonJump down inp = fst (onKey "arrowup" down inp)
  /\ setInput ButtonJump down inp = fst (onKey "w" down inp)
  /\ setInput ButtonJump down inp = fst (onKey " " down inp).
Proof.
  destruct inp as [l r j jp], down, j; cbn; repeat split; reflexivity.
Qed.

(** X2: [onKey] calls [preventDefault] exactly for the eight key names it
    knows, and leaves the input cell as it is for every key that is not one
    of the seven movement and jump keys. *)
Theorem onKey_other_keys k down inp :
  snd (onKey k down inp) = includes handledKeys k
  /\ (includes inputKeys k = false -> fst (onKey k down inp) = inp).
Proof.
  unfold onKey, includes, handledKeys, inputKeys.
  cbn [existsb app].
  destruct (String.eqb k "arrowleft"), (String.eqb k "a"),
    (String.eqb k "arrowright"), (String.eqb k "d"),
    (String.eqb k "arrowup"), (String.eqb k "w"), (String.eqb k " "),
    (String.eqb k "spacebar"); cbn;
    (split; [reflexivity | intro H; try discriminate H; reflexivity]).
Qed.

Lemma onKey_other_keys_witness :
  fst (onKey "escape" true input0) = input0.
Proof.
  apply (proj2 (onKey_other_keys "escape" true input0)). reflexivity.
Defined.

(** What [onKey] and [setInput] do to the two jump fields. *)
Lemma onKey_jump_fields k down inp :
  let inp' := fst (onKey k down inp) in
  Input.jump inp' = (if isJumpKey k then down else Input.jump inp)
  /\ Input.jumpPressed inp' =
     (if isJumpKey k && down then Input.jumpPressed inp || negb (Input.jump inp)
      else Input.jumpPressed inp).
Proof.
  unfold onKey, isJumpKey.
  destruct (includes ["arrowleft"; "a"]%string k),
    (includes ["arrowright"; "d"]%string k),
    (includes ["arrowup"; "w"; " "]%string k),
    (includes [" "; "spacebar"]%string k),
    inp as [l r j jp], down, j, jp; cbn; split; reflexivity.
Qed.

Lemma setInput_jump_fields key down inp :
  let inp' := setInput key down inp in
  let isJump := match key with ButtonJump => true | _ => false end in
  Input.jump inp' = (if isJump then down else Input.jump inp)
  /\ Input.jumpPressed inp' =
     (if isJump && down then Input.jumpPressed inp || negb (Input.jump inp)
      else Input.jumpPressed inp).
Proof.
  destruct key, inp as [l r j jp], down, j, jp; cbn; split; reflexivity.
Qed.

Lemma isJumpKey_not_direction k :
  isJumpKey k = true ->
  includes ["arrowleft"; "a"]%string k = false
  /\ includes ["arrowright"; "d"]%string k = false.
Proof.
  unfold isJumpKey, includes. cbn [existsb].
  intro H. repeat (apply orb_true_iff in H; destruct H as [H | H]);
    try discriminate H; apply String.eqb_eq in H; subst k; split; reflexivity.
Qed.

(** X3: the jump edge is latched. No key or pointer event clears
    [jumpPressed]; a key-down of a jump key while the key is up sets both
    [jump] and [jumpPressed]; a repeated key-down while it is held changes
    nothing at all; a key-up clears [jump] only. *)
Theorem jump_edge_latched :
  (forall k down inp,
      Input.jumpPressed inp = true ->
      Input.jumpPressed (fst (onKey k down inp)) = true)
  /\ (forall key down inp,
      Input.jumpPressed inp = true ->
      Input.jumpPressed (setInput key down inp) = true)
  /\ (forall k inp,
      isJumpKey k = true -> Input.jump inp = false ->
      Input.jump (fst (onKey k true inp)) = true
      /\ Input.jumpPressed (fst (onKey k true inp)) = true)
  /\ (forall k inp,
      isJumpKey k = true -> Input.jump inp = true ->
      fst (onKey k true inp) = inp)
  /\ (forall k inp,
      isJumpKey k = true ->
      Input.jump (fst (onKey k false inp)) = false
      /\ Input.jumpPressed (fst (onKey k false inp)) = Input.jumpPressed inp).
Proof.
  split; [| split; [| split; [| split]]].
  - intros k down inp H.
    destruct (onKey_jump_fields k down inp) as [_ E]. rewrite E, H.
    now destruct (isJumpKey k && down).
  - intros key down inp H.
    destruct (setInput_jump_fields key down inp) as [_ E]. rewrite E, H.
    now destruct (_ && down).
  - intros k inp Hk Hj.
    destruct (onKey_jump_fields k true inp) as [E1 E2].
    rewrite E1, E2, Hk, Hj. split; [reflexivity | cbn; apply orb_true_r].
  - intros k inp Hk Hj.
    destruct (isJumpKey_not_direction k Hk) as [Hl Hr].
    unfold onKey. unfold isJumpKey in Hk. rewrite Hl, Hr, Hk.
    destruct inp as [l r j jp]. cbn in Hj. subst j. cbn.
    now destruct (includes _ k).
  - intros k inp Hk.
    destruct (onKey_jump_fields k false inp) as [E1 E2].
    rewrite E1, E2, Hk. split; reflexivity.
Qed.

Lemma jump_edge_latched_witness :
  Input.jumpPressed (fst (onKey "w" false (fst (onKey "w" true input0))))
  = true.
Proof.
  destruct jump_edge_latched as (H & _).
  apply H. reflexivity.
Defined.

(** A frame leaves the three key fields as they are. *)
Lemma frame_input_keys plats dt w :
  Input.left (input (frame plats dt w)) = Input.left (input w)
  /\ Input.right (input (frame plats dt w)) = Input.right (input w)
  /\ Input.jump (input (frame plats dt w)) = Input.jump (input w).
Proof.
  rewrite frame_input. unfold integrate, gravityAndJump.
  destruct (moveHorizontal dt (input w) (player w)); cbn.
  destruct (_ && _); cbn; auto.
Qed.

Lemma handle_player_no_frame plats ev w :
  isFrame ev = false -> player (handle plats ev w) = player w.
Proof. destruct ev; [reflexivity | reflexivity | discriminate]. Qed.

(** X4: over any session, the number of frames on which the jump branch is
    taken is at most one for an edge already latched, plus one if the jump
    key is up at the start, plus the number of releases of the jump key or
    button in the session. In particular, while the key stays held after
    its edge was consumed, no frame launches. *)
Theorem launches_bounded_by_presses plats evs w :
  (launches plats evs w
   <= b2n (Input.jumpPressed (input w)) + b2n (negb (Input.jump (input w)))
      + jumpReleases evs)%nat
  /\ (Input.jump (input w) = true -> Input.jumpPressed (input w) = false ->
      jumpReleases evs = 0%nat -> launches plats evs w = 0%nat).
Proof.
  assert (B : forall evs w,
    (launches plats evs w
     <= b2n (Input.jumpPressed (input w)) + b2n (negb (Input.jump (input w)))
        + jumpReleases evs)%nat).
  { clear evs w. induction evs as [| ev rest IH]; intro w.
    - cbn. lia.
    - cbn [launches]. specialize (IH (handle plats ev w)).
      unfold jumpReleases in *. cbn [filter].
      destruct ev as [k down | key down | dt]; cbn [handle] in *.
      + cbn [withInput input] in IH.
        destruct (onKey_jump_fields k down (input w)) as [E1 E2].
        rewrite E1, E2 in IH. clear E1 E2. cbn [releasesJump].
        destruct (isJumpKey k), down,
          (Input.jump (input w)), (Input.jumpPressed (input w));
          cbn in *; lia.
      + cbn [withInput input] in IH.
        destruct (setInput_jump_fields key down (input w)) as [E1 E2].
        rewrite E1, E2 in IH. clear E1 E2. cbn [releasesJump].
        destruct key, down,
          (Input.jump (input w)), (Input.jumpPressed (input w));
          cbn in *; lia.
      + destruct (frame_input_keys plats dt w) as (_ & _ & Ej).
        rewrite Ej in IH.
        rewrite frame_input, integrate_jumpPressed in IH.
        cbn [releasesJump]. unfold jumpFires.
        destruct (Input.jump (input w)), (Input.jumpPressed (input w)),
          (Player.onGround (player w)); cbn in *; lia. }
  split; [apply B |].
  intros Hj Hp Hr. specialize (B evs w). rewrite Hj, Hp, Hr in B.
  cbn in B. lia.
Qed.

Lemma launches_bounded_by_presses_witness :
  launches platforms
    [FrameEvent (1 / 60); KeyEvent "w" true; FrameEvent (1 / 60);
     KeyEvent "d" true; FrameEvent (1 / 60)]
    (mkWorld standing (Input.mk false false true false) camera0 0 None)
  = 0%nat.
Proof.
  apply (proj2 (launches_bounded_by_presses platforms _ _));
    reflexivity.
Defined.

(** X5: a press of a jump key is not lost. Whatever key and pointer events
    follow it before the next frame, that frame finds [jumpPressed] set, and
    if the actor is on the ground its integrator launches: [vy = -720] and
    [onGround] cleared. *)
Theorem press_is_not_lost plats k evs w dt :
  isJumpKey k = true ->
  Input.jump (input w) = false ->
  forallb (fun ev => negb (isFrame ev)) evs = true ->
  let w' := play plats (KeyEvent k true :: evs) w in
  player w' = player w
  /\ Input.jumpPressed (input w') = true
  /\ (Player.onGround (player w) = true ->
      jumpFires w' = true
      /\ Player.vy (i_player (integrate dt (input w') (player w')))
         = - JUMP_VEL
      /\ Player.onGround (i_player (integrate dt (input w') (player w')))
         = false).
Proof.
  intros Hk Hj Hev w'.
  assert (H : player w' = player w /\ Input.jumpPressed (input w') = true).
  { subst w'. unfold play. cbn [fold_left handle].
    set (w1 := withInput (fst (onKey k true (input w))) w).
    assert (H1 : player w1 = player w /\ Input.jumpPressed (input w1) = true).
    { split; [reflexivity |]. subst w1. cbn [withInput input].
      destruct (onKey_jump_fields k true (input w)) as [_ E].
      rewrite E, Hk, Hj. cbn. apply orb_true_r. }
    clearbody w1. revert w1 H1.
    induction evs as [| ev rest IH]; intros w1 H1; [exact H1 |].
    cbn [forallb] in Hev. apply andb_true_iff in Hev.
    destruct Hev as [Hf Hrest]. apply negb_true_iff in Hf.
    cbn [fold_left]. apply (IH Hrest).
    destruct H1 as [Hp Hjp]. split.
    - now rewrite handle_player_no_frame.
    - destruct ev as [k' d' | key d' | dt']; [| | discriminate Hf];
        cbn [handle withInput input].
      + destruct (onKey_jump_fields k' d' (input w1)) as [_ E].
        rewrite E, Hjp. now destruct (_ && d').
      + destruct (setInput_jump_fields key d' (input w1)) as [_ E].
        rewrite E, Hjp. now destruct (_ && d'). }
  destruct H as [Hp Hjp]. split; [exact Hp | split; [exact Hjp |]].
  intro Hg. unfold jumpFires.
  rewrite integrate_vy, integrate_onGround, Hjp, Hp, Hg. now cbn.
Qed.

Lemma press_is_not_lost_witness :
  let w' := play platforms
              [KeyEvent " " true; KeyEvent " " false; KeyEvent "a" true]
              (scene standing noInput) in
  Input.jumpPressed (input w') = true
  /\ Player.vy (i_player (integrate (1 / 60) (input w') (player w')))
     = - JUMP_VEL.
Proof.
  pose proof (press_is_not_lost platforms " "
                [KeyEvent " " false; KeyEvent "a" true]
                (scene standing noInput) (1 / 60)
                eq_refl eq_refl eq_refl) as K.
  cbv zeta in K. destruct K as (_ & Hjp & K).
  destruct (K eq_refl) as (_ & Hv & _).
  cbv zeta. split; [exact Hjp | exact Hv].
Defined.

(** ** More on the tick *)

(** The cells of the player after [update], from the integrator's result
    and the resolver's. *)
Lemma update_player plats dt w :
  let i := integrate dt (input w) (player w) in
  let q := i_player i in
  let res := resolveCollisions plats q (dtRef w)
               (Player.x q) (Player.y q) (Player.vx q) (Player.vy q) in
  player (update plats dt w) = applyResolution res (i_nx i) (i_ny i) q.
Proof. reflexivity. Qed.

(** X6: whatever the platforms, a tick ends with [x] within 0.01 of the
    integrated [x + vx * dt]: the resolver's horizontal correction is kept
    only when it is that small. The same holds for [y] when the tick ends
    with [onGround] false. So for [dt >= 0] the actor moves at most
    [MOVE_MAX * dt + 0.01] horizontally in a tick. *)
Theorem end_of_tick_position plats dt w :
  let i := integrate dt (input w) (player w) in
  let p' := player (update plats dt w) in
  Qabs (Player.x p' - i_nx i) <= 0.01
  /\ (Player.onGround p' = false -> Qabs (Player.y p' - i_ny i) <= 0.01)
  /\ (0 <= dt ->
      Qabs (Player.x p' - Player.x (player w)) <= MOVE_MAX * dt + 0.01).
Proof.
  intros i p'. subst p'. rewrite update_player. cbv zeta. fold i.
  set (q := i_player i).
  set (res := resolveCollisions plats q (dtRef w) (Player.x q) (Player.y q)
                (Player.vx q) (Player.vy q)).
  destruct (applyResolution_fields res (i_nx i) (i_ny i) q)
    as (_ & _ & Fog & _ & _ & Fx & Fy).
  rewrite Fx, Fy, Fog.
  destruct (integrate_tentative dt (input w) (player w)) as [Tx _].
  fold i in Tx. fold q in Tx.
  pose proof (integrate_vx_clamped dt (input w) (player w)) as Hc.
  cbv zeta in Hc. fold i in Hc. fold q in Hc. unfold MOVE_MAX in *.
  assert (X1 : Qabs (i_nx i - Res.nx res) <= 0.01 \/
               0.01 < Qabs (i_nx i - Res.nx res)).
  { destruct (Qlt_le_dec 0.01 (Qabs (i_nx i - Res.nx res))); auto. }
  split; [| split].
  - branches; qprops; qarith.
  - intros ->. cbn [negb andb]. branches; qprops; qarith.
  - intro Hdt.
    assert (P1 : Player.vx q * dt <= 260 * dt)
      by (apply Qmult_le_compat_r; lra).
    assert (P2 : -260 * dt <= Player.vx q * dt)
      by (apply Qmult_le_compat_r; lra).
    rewrite Tx in *. branches; qprops; qarith.
Qed.

Lemma end_of_tick_position_witness :
  let w := mkWorld runnerClose noInput camera0 (1 / 60) None in
  let i := integrate (1 / 60) (input w) (player w) in
  Qabs (Player.x (player (update [wall] (1 / 60) w)) - 170) <= 260 * (1 / 60) + 0.01.
Proof.
  pose proof (end_of_tick_position [wall] (1 / 60)
                (mkWorld runnerClose noInput camera0 (1 / 60) None)) as K.
  cbv zeta in K. destruct K as (_ & _ & K).
  cbv zeta. apply K. vm_compute. discriminate.
Defined.

Lemma integrate_facing dt inp p :
  Player.facing (i_player (integrate dt inp p)) =
  if Input.left inp && negb (Input.right inp) then (-1)%Z
  else if Input.right inp && negb (Input.left inp) then 1%Z
  else Player.facing p.
Proof.
  unfold integrate, gravityAndJump, moveHorizontal.
  destruct p as [x y w h vx vy og f]; cbn.
  branches; cbn; reflexivity.
Qed.

Lemma applyResolution_facing res nx ny p :
  Player.facing (applyResolution res nx ny p) = Player.facing p.
Proof. destruct p; reflexivity. Qed.

(** After [update], [onGround] set means [vy] is 0, and [vx] is what the
    integrator left, or 0. *)
Lemma update_velocity plats dt w :
  let q := i_player (integrate dt (input w) (player w)) in
  let p' := player (update plats dt w) in
  (Player.onGround p' = true -> Player.vy p' = 0)
  /\ (Player.vx p' = Player.vx q \/ Player.vx p' = 0).
Proof.
  cbv zeta. rewrite update_vy, update_vx, update_onGround. cbv zeta.
  set (q := i_player (integrate dt (input w) (player w))).
  unfold resolveCollisions. split.
  - match goal with
    | |- context [resolveLoop ?a ?b ?c ?d ?l ?s] =>
        destruct (resolveLoop_vy a b c d l s) as [[_ Eg] | E0]
    end; [| intros _; exact E0].
    cbn [Res.onGround] in Eg. rewrite Eg. discriminate.
  - match goal with
    | |- context [resolveLoop ?a ?b ?c ?d ?l ?s] =>
        destruct (resolveLoop_vx a b c d l s) as [E | E]
    end; [left | right]; exact E.
Qed.

Lemma wellFormed_handle plats w0 h0 ev w :
  wellFormed w0 h0 w -> wellFormed w0 h0 (handle plats ev w).
Proof.
  intros (Hw & Hh & Hv & Hf & Hg & Hc).
  destruct ev as [k down | key down | dt];
    [repeat split; assumption | repeat split; assumption |].
  cbn [handle]. unfold wellFormed, frame.
  set (w1 := mkWorld (player w) (input w) (camera w) dt (lastRef w)).
  destruct (update_velocity plats dt w1) as [Vg Vx]. cbv zeta in Vg, Vx.
  pose proof (integrate_vx_clamped dt (input w1) (player w1)) as Hcl.
  cbv zeta in Hcl.
  rewrite (update_player plats dt w1) in *. cbv zeta in *.
  set (i := integrate dt (input w1) (player w1)) in *.
  set (res := resolveCollisions _ _ _ _ _ _ _) in *.
  destruct (applyResolution_fields res (i_nx i) (i_ny i) (i_player i))
    as (_ & _ & _ & Fw & Fh & _ & _).
  destruct (integrate_pos dt (input w1) (player w1)) as (_ & _ & Pw & Ph).
  fold i in Pw, Ph.
  split; [| split; [| split; [| split; [| split]]]].
  - rewrite Fw, Pw. exact Hw.
  - rewrite Fh, Ph. exact Hh.
  - destruct Vx as [E | E]; rewrite E.
    + apply Qabs_Qle_condition. exact Hcl.
    + vm_compute. discriminate.
  - rewrite applyResolution_facing. subst i. rewrite integrate_facing.
    cbn [input player w1]. branches; auto.
  - intro H. rewrite (Vg H). reflexivity.
  - reflexivity.
Qed.

(** X7: every world that a session of key events, pointer events and frames
    reaches from a well-formed one is well formed: the actor's size is the
    initial one, [|vx| <= MOVE_MAX], [facing] is 1 or -1, [onGround] set
    implies [vy = 0], and the camera's [y] is 0. The initial world is well
    formed. *)
Theorem session_invariant plats w0 h0 evs w :
  wellFormed w0 h0 w -> wellFormed w0 h0 (play plats evs w).
Proof.
  unfold play. revert w. induction evs as [| ev rest IH]; intros w H.
  - exact H.
  - cbn [fold_left]. apply IH. now apply wellFormed_handle.
Qed.

Lemma world0_wellFormed : wellFormed 28 44 world0.
Proof.
  unfold wellFormed. cbn.
  split; [reflexivity | split; [reflexivity | split; [| split; [| split]]]].
  - vm_compute. discriminate.
  - now left.
  - discriminate.
  - reflexivity.
Qed.

Lemma session_invariant_witness :
  wellFormed 28 44
    (play platforms
       [KeyEvent "d" true; FrameEvent (1 / 60); PointerEvent ButtonJump true;
        FrameEvent (1 / 30)] world0).
Proof.
  apply (session_invariant platforms 28 44 _ world0 world0_wellFormed).
Defined.

(** X8: with no direction held (or both), a tick of delta [dt >= 0] never
    reverses the horizontal velocity and never increases its magnitude:
    [vx] ends between 0 and its value before. *)
Theorem no_direction_slows plats dt w :
  Input.left (input w) = Input.right (input w) ->
  0 <= dt ->
  let v := Player.vx (player w) in
  let v' := Player.vx (player (update plats dt w)) in
  (0 <= v -> 0 <= v' /\ v' <= v) /\ (v <= 0 -> v <= v' /\ v' <= 0).
Proof.
  intros Hin Hdt v v'.
  assert (Hi : let u := Player.vx (i_player (integrate dt (input w)
                                               (player w))) in
               (0 <= v -> 0 <= u /\ u <= v) /\ (v <= 0 -> v <= u /\ u <= 0)).
  { subst v. unfold integrate, gravityAndJump, moveHorizontal, MOVE_MAX,
      FRICTION.
    destruct (player w) as [x y pw ph vx vy og f],
      (input w) as [l r j jp].
    cbn [Player.vx Input.left Input.right Input.jumpPressed] in *.
    subst l. destruct r; cbn [andb negb];
      branches; cbn [i_player Player.vx]; qprops; qarith. }
  cbv zeta in Hi.
  destruct (update_velocity plats dt w) as [_ [E | E]]; subst v';
    rewrite E; [exact Hi | split; intro; lra].
Qed.

Lemma no_direction_slows_witness :
  let v' := Player.vx (player (update platforms (1 / 60)
                                 (scene drifting noInput))) in
  0 <= v' /\ v' <= 100.
Proof.
  pose proof (no_direction_slows platforms (1 / 60) (scene drifting noInput)
                eq_refl) as K.
  cbv zeta in K. cbv zeta. apply K; vm_compute; discriminate.
Defined.

(** ** Landing *)

(** X9: when exactly one platform passes the broad-phase test, the tick ends
    with [onGround] set exactly when the landing test holds for it on the
    pose before the tick and the integrated [vy]; then the feet are on its
    top and [vy = 0]. The test is swept, so this holds for every delta and
    every thickness of the platform. *)
Theorem lands_on_only_candidate plats q dt w :
  let p := i_player (integrate dt (input w) (player w)) in
  let p' := player (frame plats dt w) in
  filter (near (Player.x p) (Player.y p)) plats = [q] ->
  0 < Player.h p -> 0 < Platform.h q ->
  (landsOn p dt (Player.x p) (Player.y p) (Player.vy p) q ->
     Player.onGround p' = true /\ Player.vy p' = 0
     /\ Player.y p' + Player.h p' == Platform.y q)
  /\ (~ landsOn p dt (Player.x p) (Player.y p) (Player.vy p) q ->
     Player.onGround p' = false).
Proof.
  intros p p' Hf Hh Hqh. subst p'. unfold frame.
  rewrite update_player. cbv zeta. cbn [player input dtRef].
  fold p.
  set (i := integrate dt (input w) (player w)).
  match goal with
  | |- context [applyResolution ?r _ _ _] => set (res := r)
  end.
  destruct (applyResolution_fields res (i_nx i) (i_ny i) p)
    as (_ & Fvy & Fog & _ & Fh & _ & Fy).
  rewrite Fvy, Fog, Fy, Fh.
  subst res. unfold resolveCollisions. rewrite Hf.
  cbn [resolveLoop fold_left]. unfold landsOn, overlapsX, resolveStep.
  cbn [Res.nx Res.ny Res.vx Res.vy Res.onGround].
  split.
  - intros ([O1 O2] & L1 & L2).
    destruct (_ && _ && _ && _) eqn:E at 1.
    2:{ exfalso. qprops; lra. }
    rewrite E. cbn [negb andb].
    destruct (_ && _ && _ && _) eqn:B at 1.
    1:{ exfalso. qprops. lra. }
    rewrite B. repeat split; try reflexivity. lra.
  - intros Hno.
    destruct (_ && _ && _ && _) eqn:E at 1; [| reflexivity].
    exfalso. apply Hno. qprops. repeat split; lra.
Qed.

Lemma lands_on_only_candidate_witness :
  let w := scene (Player.mk 500 350 28 44 0 180 false 1%Z) noInput in
  let p' := player (frame [specGround] (1 / 30) w) in
  Player.onGround p' = true /\ Player.vy p' = 0
  /\ Player.y p' + Player.h p' == 400.
Proof.
  pose proof (lands_on_only_candidate [specGround] specGround (1 / 30)
                (scene (Player.mk 500 350 28 44 0 180 false 1%Z) noInput))
    as K.
  cbv zeta in K.
  assert (H1 : 0 < 44) by reflexivity.
  assert (H2 : 0 < 48) by reflexivity.
  destruct (K ltac:(vm_compute; reflexivity) H1 H2) as [L _].
  cbv zeta. apply L. unfold landsOn, overlapsX. qeval.
Defined.

(** The loop sets [onGround] only for a candidate whose top was at or below
    the feet before the tick. *)
Lemma resolveLoop_onGround pl dtr px py cands st :
  Res.onGround st = false ->
  Res.onGround (resolveLoop pl dtr px py cands st) = true ->
  exists q, In q cands /\ py + Player.h pl <= Platform.y q.
Proof.
  intros Hst.
  apply (resolveLoop_inv
    (fun s => Res.onGround s = true ->
              exists q, In q cands /\ py + Player.h pl <= Platform.y q)).
  - intros s p Hp Hs. unfold resolveStep. cbn [Res.onGround].
    destruct (_ && _ && _ && _) eqn:E at 1.
    + intros _. exists p. split; [exact Hp |]. qprops. assumption.
    + exact Hs.
  - rewrite Hst. discriminate.
Qed.

(** X10: ground contact is detected afresh on every tick. A tick ends with
    [onGround] set only if some platform of the level passes the
    broad-phase test and has its top at or below the actor's feet as they
    were before the tick, whatever [onGround] was before. *)
Theorem ground_needs_platform plats dt w :
  Player.onGround (player (update plats dt w)) = true ->
  exists q, In q plats
    /\ near (Player.x (player w)) (Player.y (player w)) q = true
    /\ Player.y (player w) + Player.h (player w) <= Platform.y q.
Proof.
  rewrite update_onGround. cbv zeta.
  destruct (integrate_pos dt (input w) (player w)) as (Px & Py & _ & Ph).
  set (p := i_player (integrate dt (input w) (player w))) in *.
  unfold resolveCollisions. intro H.
  apply resolveLoop_onGround in H; [| reflexivity].
  destruct H as (q & Hq & Hy). apply filter_In in Hq.
  destruct Hq as [Hq Hn]. exists q.
  rewrite Px, Py in Hn. rewrite Py, Ph in Hy. auto.
Qed.

Lemma ground_needs_platform_witness :
  exists q, In q platforms
    /\ near 100 356 q = true /\ 356 + 44 <= Platform.y q.
Proof.
  apply (ground_needs_platform platforms (1 / 60)
           (mkWorld standing noInput camera0 (1 / 60) None)).
  vm_compute. reflexivity.
Defined.

(** ** Below the level *)

Lemma fallen_step pl dt px py st q :
  0 <= dt -> Platform.y q < py + Player.h pl ->
  Res.ny st == py /\ 0 <= Res.vy st /\ Res.onGround st = false ->
  let st' := resolveStep pl dt px py st q in
  Res.ny st' == py /\ 0 <= Res.vy st' /\ Res.onGround st' = false.
Proof.
  destruct st as [nx ny vx vy og]. cbn [Res.ny Res.vy Res.onGround].
  intros Hdt Hq (Hy & Hv & ->).
  assert (P : 0 <= vy * dt) by now apply Qmult_le_0_compat.
  unfold resolveStep. cbn [Res.nx Res.ny Res.vx Res.vy Res.onGround].
  branches; qprops;
    (split; [| split]); try reflexivity; try assumption; lra.
Qed.

Lemma fallen_frame plats dt w :
  0 <= dt -> fallen plats w -> fallen plats (frame plats dt w).
Proof.
  intros Hdt (Hog & Hvy & Hh & Hq). unfold fallen, frame.
  rewrite update_player. cbv zeta. cbn [player input dtRef].
  set (i := integrate dt (input w) (player w)).
  set (p := i_player i).
  destruct (integrate_pos dt (input w) (player w)) as (Px & Py & Pw & Ph).
  destruct (integrate_tentative dt (input w) (player w)) as (_ & Ty).
  fold i in Px, Py, Pw, Ph, Ty. fold p in Px, Py, Pw, Ph, Ty.
  assert (Vy : Player.vy p = Player.vy (player w) + GRAVITY * dt).
  { subst p i. rewrite integrate_vy, Hog, andb_false_r. reflexivity. }
  assert (V0 : 0 <= Player.vy p) by (rewrite Vy; unfold GRAVITY; lra).
  match goal with
  | |- context [applyResolution ?r _ _ _] => set (res := r)
  end.
  assert (HR : Res.ny res == Player.y p /\ 0 <= Res.vy res
               /\ Res.onGround res = false).
  { subst res. unfold resolveCollisions.
    apply (resolveLoop_inv
      (fun st => Res.ny st == Player.y p /\ 0 <= Res.vy st
                 /\ Res.onGround st = false)).
    - intros st q Hin Hst. apply filter_In in Hin. destruct Hin as [Hin _].
      apply fallen_step; [exact Hdt | | exact Hst].
      rewrite Py, Ph. now apply Hq.
    - cbn [Res.ny Res.vy Res.onGround].
      split; [reflexivity | split; [exact V0 | reflexivity]]. }
  destruct HR as (Ry & Rv & Rg).
  destruct (applyResolution_fields res (i_nx i) (i_ny i) p)
    as (_ & Fvy & Fog & _ & Fh & _ & Fy).
  rewrite Fvy, Fog, Fh, Fy, Rg, Ph. cbn [negb andb].
  assert (P : 0 <= Player.vy p * dt) by now apply Qmult_le_0_compat.
  split; [reflexivity | split; [exact Rv | split; [exact Hh |]]].
  intros q Hin. specialize (Hq q Hin).
  rewrite Ty, Py in *. branches; qprops; lra.
Qed.

(** X11: there is no floor under the level. Once the actor is airborne, not
    rising, and has its feet below the top of every platform, it stays so
    over any session whose frames have [dt >= 0], whatever keys are
    pressed: [onGround] is never set again. *)
Theorem fallen_forever plats evs w :
  forwardInTime evs -> fallen plats w -> fallen plats (play plats evs w).
Proof.
  unfold play, forwardInTime. revert w.
  induction evs as [| ev rest IH]; intros w Ht Hf; [exact Hf |].
  cbn [fold_left]. inversion Ht as [| ? ? Hev Hrest]; subst.
  apply IH; [exact Hrest |].
  destruct ev as [k down | key down | dt]; cbn [handle].
  - exact Hf.
  - exact Hf.
  - now apply fallen_frame.
Qed.

Lemma fallen_forever_witness :
  Player.onGround
    (player (play platforms
               [FrameEvent (1 / 60); KeyEvent " " true; FrameEvent (1 / 30);
                KeyEvent "a" true; FrameEvent (1 / 60)]
               (scene (Player.mk 900 400 28 44 0 0 false 1%Z) noInput)))
  = false.
Proof.
  refine (proj1 (fallen_forever platforms _ _ _ _)).
  - repeat constructor; vm_compute; discriminate.
  - unfold fallen. cbn [player scene Player.onGround Player.vy Player.h
                          Player.y].
    split; [reflexivity | split; [| split]]; try (vm_compute; discriminate).
    intros q Hq.
    repeat (destruct Hq as [<- | Hq]; [vm_compute; reflexivity |]).
    destruct Hq.
Defined.

(** ** The frame loop *)

(** X12: the delta the loop passes to [update] is at most 1/30 s; it is 0 on
    the first frame after a start or a restart; it is not negative when the
    timestamp is not before the previous one; and the camera's smoothing
    factor [min(1, 10 * dt)] is then [10 * dt], at most 1/3: under the loop
    the clamp at 1 never applies. The loop records the timestamp and the
    delta. *)
Theorem loop_delta plats t w :
  loopDelta t w <= 1 / 30
  /\ Qmin 1 (10 * loopDelta t w) == 10 * loopDelta t w
  /\ 10 * loopDelta t w <= 1 / 3
  /\ (lastRef w = None -> loopDelta t w == 0)
  /\ (forall l, lastRef w = Some l -> l <= t -> 0 <= loopDelta t w)
  /\ (forall l, lastRef w = Some l ->
        l <= t -> t <= l + 1000 / 30 -> loopDelta t w == (t - l) / 1000)
  /\ lastRef (loop plats t w) = Some t
  /\ dtRef (loop plats t w) = loopDelta t w.
Proof.
  destruct (loopDelta_clamped t w) as [H1 H2].
  split; [exact H1 | split; [| split; [| split; [exact H2 | split;
    [| split; [| split; reflexivity]]]]]].
  - qarith.
  - qarith.
  - intros l Hl Ht. unfold loopDelta. rewrite Hl. qarith.
  - intros l Hl H3 H4. unfold loopDelta. rewrite Hl. qarith.
Qed.

Lemma loop_delta_witness :
  0 <= loopDelta 1016 (loop platforms 1000 world0)
  /\ loopDelta 1016 (loop platforms 1000 world0) == 16 / 1000.
Proof.
  destruct (loop_delta platforms 1016 (loop platforms 1000 world0))
    as (_ & _ & _ & _ & H5 & H6 & _).
  split.
  - apply (H5 1000); [reflexivity | vm_compute; discriminate].
  - apply (H6 1000); [reflexivity | |]; vm_compute; discriminate.
Defined.

Lemma resolveStep_null_dt pl dtr px py v0 s p :
  dtr == 0 ->
  Res.nx s == px /\ Res.ny s == py /\ Res.vx s = v0 ->
  let s' := resolveStep pl dtr px py s p in
  Res.nx s' == px /\ Res.ny s' == py /\ Res.vx s' = v0.
Proof.
  destruct s as [nx ny vx vy og]. cbn [Res.nx Res.ny Res.vx].
  intros Hd (Hx & Hy & Hv).
  assert (P1 : vx * dtr == 0) by (rewrite Hd; ring).
  assert (P2 : vy * dtr == 0) by (rewrite Hd; ring).
  unfold resolveStep.
  cbn [Res.nx Res.ny Res.vx Res.vy Res.onGround].
  branches; qprops; repeat split; try assumption; try lra.
Qed.

Lemma frame_null_dt plats dt w :
  dt == 0 ->
  let w' := frame plats dt w in
  Player.x (player w') == Player.x (player w)
  /\ Player.y (player w') == Player.y (player w)
  /\ Camera.x (camera w') == Camera.x (camera w).
Proof.
  intros Hd w'. subst w'. unfold frame, update.
  cbn [player input camera dtRef lastRef].
  set (i := integrate dt (input w) (player w)).
  set (q := i_player i).
  set (res := resolveCollisions plats q dt (Player.x q) (Player.y q)
                (Player.vx q) (Player.vy q)).
  assert (HR : Res.nx res == Player.x q /\ Res.ny res == Player.y q
               /\ Res.vx res = Player.vx q).
  { subst res. unfold resolveCollisions.
    apply (resolveLoop_inv
      (fun s => Res.nx s == Player.x q /\ Res.ny s == Player.y q
                /\ Res.vx s = Player.vx q)).
    - intros s p _ Hs. now apply resolveStep_null_dt.
    - cbn. repeat split; reflexivity. }
  destruct HR as (Rx & Ry & _).
  destruct (integrate_pos dt (input w) (player w)) as (Px & Py & _ & _).
  destruct (integrate_tentative dt (input w) (player w)) as (Tx & Ty).
  fold i in Tx, Ty. fold q in Tx, Ty. fold i q in Px, Py.
  destruct (applyResolution_fields res (i_nx i) (i_ny i) q)
    as (_ & _ & _ & _ & _ & Fx & Fy).
  rewrite Px in Rx. rewrite Py in Ry.
  assert (Z1 : Player.vx q * dt == 0) by (rewrite Hd; ring).
  assert (Z2 : Player.vy q * dt == 0) by (rewrite Hd; ring).
  assert (X' : Player.x (applyResolution res (i_nx i) (i_ny i) q)
               == Player.x (player w)).
  { rewrite Fx, Tx. branches; qprops; qarith. }
  split; [exact X' | split].
  - rewrite Fy, Ty. branches; qprops; qarith.
  - unfold followCamera. cbn [Camera.x].
    assert (K : Qmin 1 (10 * dt) == 0) by qarith.
    rewrite K. ring.
Qed.

(** X13: the first frame after a start, or after the loop was torn down and
    started again (pause and resume), moves nothing, however long the pause:
    its delta is 0, and the actor's [x] and [y] and the camera's [x] are
    what they were. *)
Theorem restart_keeps_pose plats t w :
  let w' := loop plats t (cleanup w) in
  loopDelta t (cleanup w) == 0
  /\ Player.x (player w') == Player.x (player w)
  /\ Player.y (player w') == Player.y (player w)
  /\ Camera.x (camera w') == Camera.x (camera w).
Proof.
  assert (Hd : loopDelta t (cleanup w) == 0).
  { now apply (proj2 (loopDelta_clamped t (cleanup w))). }
  split; [exact Hd |].
  unfold loop.
  apply (frame_null_dt plats (loopDelta t (cleanup w))
           (mkWorld (player (cleanup w)) (input (cleanup w))
              (camera (cleanup w)) (dtRef (cleanup w)) (Some t)) Hd).
Qed.

(** ** Drawing *)

(** X14: the two rectangles filled for a platform of height [h >= 0], the
    grass strip and the dirt body, have the platform's [x] and [w], heights
    that are not negative, the grass at most 6 high, the dirt starting where
    the grass ends, and heights adding up to [h]: what is painted is the
    rectangle the actor collides with. *)
Theorem platformFills_tile p :
  0 <= Platform.h p ->
  let grass := fst (platformFills p) in
  let dirt := snd (platformFills p) in
  Rect.x grass = Platform.x p /\ Rect.x dirt = Platform.x p
  /\ Rect.w grass = Platform.w p /\ Rect.w dirt = Platform.w p
  /\ Rect.y grass = Platform.y p
  /\ Rect.y dirt == Rect.y grass + Rect.h grass
  /\ 0 <= Rect.h grass /\ Rect.h grass <= 6 /\ 0 <= Rect.h dirt
  /\ Rect.h grass + Rect.h dirt == Platform.h p
  /\ Rect.y dirt + Rect.h dirt == Platform.y p + Platform.h p.
Proof.
  intro Hh. cbn.
  repeat (split; [try reflexivity; qarith |]). qarith.
Qed.

Lemma platformFills_tile_witness :
  Rect.h (fst (platformFills (Platform.mk 200 320 (TILE * 3) (TILE / 2))))
  + Rect.h (snd (platformFills (Platform.mk 200 320 (TILE * 3) (TILE / 2))))
  == TILE / 2.
Proof.
  pose proof (platformFills_tile
                (Platform.mk 200 320 (TILE * 3) (TILE / 2))) as K.
  cbv zeta in K.
  assert (H : 0 <= TILE / 2) by (vm_compute; discriminate).
  destruct (K H) as (_ & _ & _ & _ & _ & _ & _ & _ & _ & E & _).
  exact E.
Defined.

(** X15: the device pixel ratio used for the backing store is always
    between 1 and 2, and is 1 when the browser reports 0; so for a CSS box
    with sides that are not negative, each side of the backing store is at
    least the floor of the CSS side and at most the floor of its double. *)
Theorem canvasSize_bounds devicePixelRatio rectW rectH :
  0 <= rectW -> 0 <= rectH ->
  1 <= pixelRatio devicePixelRatio /\ pixelRatio devicePixelRatio <= 2
  /\ pixelRatio 0 == 1
  /\ (Qfloor rectW <= fst (canvasSize devicePixelRatio rectW rectH)
      <= Qfloor (rectW * 2))%Z
  /\ (Qfloor rectH <= snd (canvasSize devicePixelRatio rectW rectH)
      <= Qfloor (rectH * 2))%Z.
Proof.
  intros Hw Hh.
  assert (B : 1 <= pixelRatio devicePixelRatio
              /\ pixelRatio devicePixelRatio <= 2).
  { unfold pixelRatio. destruct (Qeq_bool devicePixelRatio 0); qarith. }
  destruct B as [B1 B2].
  split; [exact B1 | split; [exact B2 | split; [reflexivity |]]].
  unfold canvasSize. cbn [fst snd].
  set (r := pixelRatio devicePixelRatio) in *.
  assert (W1 : rectW <= rectW * r) by nra.
  assert (W2 : rectW * r <= rectW * 2) by nra.
  assert (H1 : rectH <= rectH * r) by nra.
  assert (H2 : rectH * r <= rectH * 2) by nra.
  repeat split; now apply Qfloor_resp_le.
Qed.

Lemma canvasSize_bounds_witness :
  (Qfloor 640 <= fst (canvasSize 3 640 360) <= Qfloor (640 * 2))%Z.
Proof.
  assert (H1 : 0 <= 640) by (vm_compute; discriminate).
  assert (H2 : 0 <= 360) by (vm_compute; discriminate).
  destruct (canvasSize_bounds 3 640 360 H1 H2) as (_ & _ & _ & K & _).
  exact K.
Defined.

(** ** Leaving and keeping the ground *)

Lemma liftoff_step pl dt px py st q :
  0 < dt -> 0 <= Player.h pl ->
  ~ (Platform.y q + Platform.h q <= py
     /\ py - JUMP_VEL * dt <= Platform.y q + Platform.h q) ->
  Res.ny st = py /\ Res.vy st = - JUMP_VEL /\ Res.onGround st = false ->
  let st' := resolveStep pl dt px py st q in
  Res.ny st' = py /\ Res.vy st' = - JUMP_VEL /\ Res.onGround st' = false.
Proof.
  destruct st as [nx ny vx vy og]. cbn [Res.ny Res.vy Res.onGround].
  intros Hdt Hh Hq (-> & -> & ->).
  unfold resolveStep. cbn [Res.nx Res.ny Res.vx Res.vy Res.onGround].
  unfold JUMP_VEL in *.
  branches; qprops;
    try (exfalso; lra); try (exfalso; apply Hq; split; lra); repeat split.
Qed.

(** X16: a jump lifts off. On a frame with [dt > 0] that finds
    [jumpPressed] and [onGround] set, if no platform's underside lies within
    [JUMP_VEL * dt] above the actor's head, the tick ends airborne with
    [vy = -JUMP_VEL], [y] within 0.01 of [y - JUMP_VEL * dt], and the edge
    consumed. No landing test can hold on that tick. *)
Theorem jump_lifts_off plats dt w :
  0 < dt -> 0 <= Player.h (player w) ->
  jumpFires w = true ->
  headroom plats (player w) (JUMP_VEL * dt) ->
  let p' := player (frame plats dt w) in
  Player.onGround p' = false
  /\ Player.vy p' = - JUMP_VEL
  /\ Qabs (Player.y p' - (Player.y (player w) - JUMP_VEL * dt)) <= 0.01
  /\ Input.jumpPressed (input (frame plats dt w)) = false.
Proof.
  intros Hdt Hh Hj Hroom p'. subst p'.
  split; [| split; [| split]];
    [| | | rewrite frame_input; apply integrate_jumpPressed].
  all: unfold frame; rewrite update_player; cbv zeta;
    cbn [player input dtRef];
    set (i := integrate dt (input w) (player w));
    set (p := i_player i);
    destruct (integrate_pos dt (input w) (player w)) as (Px & Py & Pw & Ph);
    destruct (integrate_tentative dt (input w) (player w)) as (_ & Ty);
    fold i in Px, Py, Pw, Ph, Ty; fold p in Px, Py, Pw, Ph, Ty;
    assert (Vy : Player.vy p = - JUMP_VEL)
      by (subst p i; rewrite integrate_vy; unfold jumpFires in Hj;
          now rewrite Hj);
    match goal with
    | |- context [applyResolution ?r _ _ _] => set (res := r)
    end;
    assert (HR : Res.ny res = Player.y p /\ Res.vy res = - JUMP_VEL
                 /\ Res.onGround res = false)
      by (subst res; unfold resolveCollisions;
          apply (resolveLoop_inv
            (fun st => Res.ny st = Player.y p /\ Res.vy st = - JUMP_VEL
                       /\ Res.onGround st = false));
          [ intros st q Hin Hst; apply filter_In in Hin;
            destruct Hin as [Hin Hn];
            apply liftoff_step;
            [exact Hdt | now rewrite Ph
            | rewrite Px, Py in Hn; rewrite Py; now apply Hroom
            | exact Hst]
          | cbn [Res.ny Res.vy Res.onGround]; rewrite Vy; repeat split ]);
    destruct HR as (Ry & Rv & Rg);
    destruct (applyResolution_fields res (i_nx i) (i_ny i) p)
      as (_ & Fvy & Fog & _ & _ & _ & Fy).
  - now rewrite Fog.
  - now rewrite Fvy.
  - rewrite Fy, Rg, Ry, Ty, Vy, Py. cbn [negb andb].
    unfold JUMP_VEL. branches; qprops; qarith.
Qed.

Lemma standing_headroom : headroom platforms standing (JUMP_VEL * (1 / 120)).
Proof.
  intros q Hq _ [A B].
  repeat (destruct Hq as [<- | Hq];
          [vm_compute in A, B; first [now apply A | now apply B] |]).
  destruct Hq.
Qed.

Lemma jump_lifts_off_witness :
  let w := scene standing (Input.mk false false true true) in
  Player.onGround (player (frame platforms (1 / 120) w)) = false
  /\ Player.vy (player (frame platforms (1 / 120) w)) = - JUMP_VEL.
Proof.
  assert (H1 : 0 < 1 / 120) by reflexivity.
  assert (H2 : 0 <= 44) by (vm_compute; discriminate).
  pose proof (jump_lifts_off platforms (1 / 120)
                (scene standing (Input.mk false false true true))
                H1 H2 eq_refl standing_headroom) as K.
  cbv zeta in K. destruct K as (K1 & K2 & _).
  cbv zeta. split; [exact K1 | exact K2].
Defined.

Lemma run_step pl dt px py vx0 st q :
  0 <= dt -> clearOf pl dt px py q -> ~ overlapsY pl py q ->
  Res.nx st = px /\ Res.vx st = vx0 /\ Res.ny st == py
  /\ 0 <= Res.vy st /\ Res.vy st <= GRAVITY * dt
  /\ (Res.onGround st = true -> Res.vy st == 0) ->
  let st' := resolveStep pl dt px py st q in
  Res.nx st' = px /\ Res.vx st' = vx0 /\ Res.ny st' == py
  /\ 0 <= Res.vy st' /\ Res.vy st' <= GRAVITY * dt
  /\ (Res.onGround st' = true -> Res.vy st' == 0).
Proof.
  unfold clearOf, overlapsY. destruct st as [nx ny vx vy og].
  cbn [Res.nx Res.ny Res.vx Res.vy Res.onGround].
  intros Hdt Hc Hside (-> & -> & Hny & Hv0 & Hv1 & Hog).
  assert (P2 : 0 <= vy * dt) by now apply Qmult_le_0_compat.
  assert (P3 : vy * dt <= GRAVITY * dt * dt)
    by now apply Qmult_le_compat_r.
  assert (Hg : 0 <= GRAVITY * dt) by (unfold GRAVITY; lra).
  assert (S : (py + Player.h pl >? Platform.y q)
              && (py <? Platform.y q + Platform.h q) = false).
  { destruct (_ && _) eqn:E; [| reflexivity].
    exfalso. apply Hside. qprops. now split. }
  assert (D : Platform.x q >= px + Player.w pl
              \/ px >= Platform.x q + Platform.w q
              \/ Platform.y q <= py + Player.h pl
              \/ py + Player.h pl + GRAVITY * dt * dt < Platform.y q).
  { destruct (Qlt_le_dec (Platform.x q) (px + Player.w pl)) as [A | A];
      [| now left].
    destruct (Qlt_le_dec px (Platform.x q + Platform.w q)) as [B | B];
      [| now right; left].
    destruct (Qlt_le_dec (py + Player.h pl) (Platform.y q)) as [C | C];
      [| now right; right; left].
    destruct (Qlt_le_dec (py + Player.h pl + GRAVITY * dt * dt)
                (Platform.y q)) as [E | E]; [now right; right; right |].
    exfalso. apply (Hc A B). now split. }
  clear Hc Hside.
  unfold resolveStep. cbn [Res.nx Res.ny Res.vx Res.vy Res.onGround].
  rewrite !S. cbn [andb].
  split; [reflexivity | split; [reflexivity |]].
  branches; qprops;
    (split; [| split; [| split; [| intro Hset]]]);
    try discriminate; try (specialize (Hog eq_refl));
    try (specialize (Hog Hset));
    destruct D as [D | [D | [D | D]]]; lra.
Qed.

Lemma run_step_support pl dt px py st s :
  0 <= dt ->
  overlapsX pl px s -> py + Player.h pl == Platform.y s ->
  Res.nx st = px -> Res.ny st == py -> 0 <= Res.vy st ->
  Res.onGround (resolveStep pl dt px py st s) = true.
Proof.
  unfold overlapsX. destruct st as [nx ny vx vy og].
  cbn [Res.nx Res.ny Res.vy].
  intros Hdt [O1 O2] Hf -> Hny Hv.
  assert (P2 : 0 <= vy * dt) by now apply Qmult_le_0_compat.
  unfold resolveStep. cbn [Res.nx Res.ny Res.vx Res.vy Res.onGround].
  destruct (_ && _ && _ && _) eqn:E at 1; [reflexivity |].
  exfalso. qprops; lra.
Qed.

(** X17: running keeps the ground. Take an actor with its feet on the top of
    a platform that passes the broad-phase test and overlaps it
    horizontally, [vy = 0], on a frame of [dt >= 0] on which no jump fires,
    with any keys held and any [vx]. If no examined platform stands beside
    the actor and none has its top within one frame of gravity below the
    feet, the tick ends with [onGround] set, [vy = 0], the same [y], the
    integrator's [vx], and [x] within 0.01 of the integrated [x]. *)
Theorem running_keeps_ground plats s dt w :
  let p := player w in
  let i := integrate dt (input w) (player w) in
  let p' := player (frame plats dt w) in
  0 <= dt -> jumpFires w = false ->
  In s plats -> near (Player.x p) (Player.y p) s = true ->
  overlapsX p (Player.x p) s ->
  Player.y p + Player.h p == Platform.y s -> Player.vy p == 0 ->
  clearBelow plats p dt -> nothingBeside plats p ->
  Player.onGround p' = true /\ Player.vy p' == 0
  /\ Player.y p' == Player.y p
  /\ Player.vx p' = Player.vx (i_player i)
  /\ Qabs (Player.x p' - i_nx i) <= 0.01.
Proof.
  intros p i p' Hdt Hj Hin Hnear Hover Hfeet Hvy Hclear Hside.
  subst p' p. unfold frame. rewrite update_player. cbv zeta.
  cbn [player input dtRef]. fold i.
  set (q := i_player i).
  destruct (integrate_pos dt (input w) (player w)) as (Px & Py & Pw & Ph).
  fold i in Px, Py, Pw, Ph. fold q in Px, Py, Pw, Ph.
  assert (Vy : Player.vy q == GRAVITY * dt).
  { subst q i. rewrite integrate_vy. unfold jumpFires in Hj. rewrite Hj.
    rewrite Hvy. ring. }
  match goal with
  | |- context [applyResolution ?r _ _ _] => set (res := r)
  end.
  assert (Hg : 0 <= GRAVITY * dt) by (unfold GRAVITY; lra).
  assert (HR : (Res.nx res = Player.x q /\ Res.vx res = Player.vx q
                /\ Res.ny res == Player.y q
                /\ 0 <= Res.vy res /\ Res.vy res <= GRAVITY * dt
                /\ (Res.onGround res = true -> Res.vy res == 0))
               /\ Res.onGround res = true).
  { subst res. unfold resolveCollisions.
    assert (Hs : In s (filter (near (Player.x q) (Player.y q)) plats)).
    { apply filter_In. split; [exact Hin | now rewrite Px, Py]. }
    assert (Hall : forall c,
              In c (filter (near (Player.x q) (Player.y q)) plats) ->
              clearOf q dt (Player.x q) (Player.y q) c
              /\ ~ overlapsY q (Player.y q) c).
    { intros c Hc. apply filter_In in Hc. destruct Hc as [Hc Hn].
      rewrite Px, Py in Hn. split.
      - unfold clearOf. rewrite Px, Py, Pw, Ph. intros A B.
        apply (Hclear c Hc Hn). now split.
      - unfold overlapsY. rewrite Py, Ph. apply (Hside c Hc Hn). }
    revert Hs Hall.
    generalize (filter (near (Player.x q) (Player.y q)) plats) as cands.
    assert (H0 : Res.nx (Res.mk (Player.x q) (Player.y q) (Player.vx q)
                           (Player.vy q) false) = Player.x q
                 /\ Res.vx (Res.mk (Player.x q) (Player.y q) (Player.vx q)
                              (Player.vy q) false) = Player.vx q
                 /\ Res.ny (Res.mk (Player.x q) (Player.y q) (Player.vx q)
                              (Player.vy q) false) == Player.y q
                 /\ 0 <= Res.vy (Res.mk (Player.x q) (Player.y q)
                                   (Player.vx q) (Player.vy q) false)
                 /\ Res.vy (Res.mk (Player.x q) (Player.y q) (Player.vx q)
                              (Player.vy q) false) <= GRAVITY * dt
                 /\ (Res.onGround (Res.mk (Player.x q) (Player.y q)
                                     (Player.vx q) (Player.vy q) false)
                     = true ->
                     Res.vy (Res.mk (Player.x q) (Player.y q) (Player.vx q)
                               (Player.vy q) false) == 0)).
    { cbn. repeat split; try reflexivity; try lra; discriminate. }
    revert H0.
    generalize (Res.mk (Player.x q) (Player.y q) (Player.vx q)
                  (Player.vy q) false) as st.
    intros st H0 cands. revert st H0.
    induction cands as [| c l IH]; intros st H0 Hs Hall; [contradiction |].
    change (resolveLoop q dt (Player.x q) (Player.y q) (c :: l) st)
      with (resolveLoop q dt (Player.x q) (Player.y q) l
              (resolveStep q dt (Player.x q) (Player.y q) st c)).
    assert (H1 := run_step q dt (Player.x q) (Player.y q) (Player.vx q) st c
                    Hdt (proj1 (Hall c (or_introl eq_refl)))
                    (proj2 (Hall c (or_introl eq_refl))) H0).
    cbv zeta in H1.
    destruct Hs as [<- | Hs].
    - assert (G1 : Res.onGround
                     (resolveStep q dt (Player.x q) (Player.y q) st c) = true).
      { destruct H0 as (A & _ & B & C & _).
        apply run_step_support; try assumption.
        - unfold overlapsX. rewrite Px, Pw. exact Hover.
        - now rewrite Py, Ph. }
      apply (resolveLoop_inv (fun t =>
        (Res.nx t = Player.x q /\ Res.vx t = Player.vx q
         /\ Res.ny t == Player.y q
         /\ 0 <= Res.vy t /\ Res.vy t <= GRAVITY * dt
         /\ (Res.onGround t = true -> Res.vy t == 0))
        /\ Res.onGround t = true)); [| now split].
      intros t c' Hc' [Ht Hgt]. split.
      + apply run_step; try assumption; apply Hall; now right.
      + now apply rest_step_onGround.
    - apply IH; [exact H1 | exact Hs |].
      intros c' Hc'. apply Hall. now right. }
  destruct HR as ((Rx & Rvx & Ry & _ & _ & Rog) & Rg).
  specialize (Rog Rg).
  destruct (applyResolution_fields res (i_nx i) (i_ny i) q)
    as (Fvx & Fvy & Fog & _ & _ & Fx & Fy).
  rewrite Fvx, Fvy, Fog, Fx, Fy, Rg. cbn [negb andb].
  split; [reflexivity | split; [exact Rog | split;
    [now rewrite Ry, Py | split; [exact Rvx |]]]].
  branches; qprops; qarith.
Qed.

Lemma standing_nothingBeside : nothingBeside platforms standing.
Proof.
  intros q Hq Hn [A B].
  repeat (destruct Hq as [<- | Hq];
          [vm_compute in Hn, A, B;
           first [discriminate Hn | discriminate A | discriminate B] |]).
  destruct Hq.
Qed.

Lemma running_keeps_ground_witness :
  let w := scene standing holdRight in
  let p' := player (frame platforms (1 / 60) w) in
  Player.onGround p' = true /\ Player.y p' == 356
  /\ Player.vx p' = Player.vx (i_player (integrate (1 / 60) holdRight standing)).
Proof.
  pose proof (running_keeps_ground platforms
                (Platform.mk (-400) 400 1600 TILE) (1 / 60)
                (scene standing holdRight)) as K.
  cbv zeta in K.
  assert (Hdt : 0 <= 1 / 60) by (vm_compute; discriminate).
  assert (Ho : overlapsX standing 100 (Platform.mk (-400) 400 1600 TILE)).
  { unfold overlapsX. qeval. }
  assert (Hf : 356 + 44 == 400) by reflexivity.
  assert (Hv : 0 == 0) by reflexivity.
  pose proof (K Hdt eq_refl (or_introl eq_refl) eq_refl Ho Hf Hv
                standing_clearBelow standing_nothingBeside) as K'.
  destruct K' as (K1 & _ & K3 & K4 & _).
  cbv zeta. split; [exact K1 | split; [exact K3 | exact K4]].
Defined.
